(** * terminal_dungeon: camera, collision-checked movement and asset loading

    A shallow embedding of [camera.py], [engine.py] ([_move_to]),
    [read_assets.py] and [sprite.py].

    Numbers.  Python [float] / [numpy.float64] values are idealised as real
    numbers: every statement below is a statement of exact real arithmetic,
    with [np.cos], [np.sin], [np.arctan2] and [np.linalg.norm] read as the
    mathematical functions they approximate.  Python [int] is [Z]. *)

From Stdlib Require Import Reals Lra Lia ZArith Ascii Bool List.
Import ListNotations.

Local Open Scope R_scope.

(** ** numpy: 2x2 arrays of float64 *)

(** A 2x2 [numpy.ndarray]; [aIJ] is the entry [a[I, J]], so [(a00, a01)] is
    row 0 and [(a10, a11)] is row 1. *)
Record mat2 : Type := Mat2 { a00 : R; a01 : R; a10 : R; a11 : R }.

(** [a @ b] on 2x2 arrays. *)
Definition matmul (a b : mat2) : mat2 :=
  {| a00 := a00 a * a00 b + a01 a * a10 b;
     a01 := a00 a * a01 b + a01 a * a11 b;
     a10 := a10 a * a00 b + a11 a * a10 b;
     a11 := a10 a * a01 b + a11 a * a11 b |}.

Infix "@" := matmul (at level 40, left associativity).

Definition row0 (a : mat2) : R * R := (a00 a, a01 a).
Definition row1 (a : mat2) : R * R := (a10 a, a11 a).

Definition identity : mat2 := Mat2 1 0 0 1.

(** [np.linalg.norm] of a vector of two components: the Euclidean norm. *)
Definition norm (v : R * R) : R := sqrt (fst v * fst v + snd v * snd v).

(** [np.arctan2(y, x)]: the angle of the point [(x, y)], in [(-PI, PI]]. *)
Definition arctan2 (y x : R) : R :=
  if Rlt_dec 0 x then atan (y / x)
  else if Rlt_dec x 0 then
    if Rle_dec 0 y then atan (y / x) + PI else atan (y / x) - PI
  else
    if Rlt_dec 0 y then PI / 2
    else if Rlt_dec y 0 then - (PI / 2)
    else 0.

(** ** camera.py *)

(** [rotation_matrix(theta)]: [x = cos theta], [y = sin theta],
    [[[x, y], [-y, x]]]. *)
Definition rotation_matrix (theta : R) : mat2 :=
  let x := cos theta in
  let y := sin theta in
  {| a00 := x; a01 := y; a10 := - y; a11 := x |}.

(** The two attributes of a [Camera] object. *)
Record Camera : Type := mkCamera { pos : R * R; _plane : mat2 }.

(** [initial_plane] of [_build_plane]: [[[1.001, 0.001], [0.0, fov]]]. *)
Definition initial_plane (fov : R) : mat2 :=
  {| a00 := 1001 / 1000; a01 := 1 / 1000; a10 := 0; a11 := fov |}.

(** [Camera._build_plane(theta, fov)]: assigns [self._plane]. *)
Definition _build_plane (self : Camera) (theta fov : R) : Camera :=
  {| pos := pos self; _plane := initial_plane fov @ rotation_matrix theta |}.

(** The [if fov > 1.0 ... elif fov < 0.0 ...] of [Camera.__init__]. *)
Definition clamp_fov (fov : R) : R :=
  if Rlt_dec 1 fov then 1
  else if Rlt_dec fov 0 then 0
  else fov.

(** [Camera.__init__(pos, theta, fov)].  The plane allocated by [np.empty]
    is overwritten by [_build_plane] before it is ever read; its content
    before that is left as the zero array here. *)
Definition Camera_init (p : R * R) (theta fov : R) : Camera :=
  let self := {| pos := p; _plane := Mat2 0 0 0 0 |} in
  _build_plane self theta (clamp_fov fov).

(** The defaults of [Camera.__init__]. *)
Definition default_pos : R * R := (0, 0).
Definition default_theta : R := 0.
Definition default_fov : R := 66 / 100.

(** The [theta] property: [x2, x1 = self._plane[0]; np.arctan2(x1, x2)]. *)
Definition theta (self : Camera) : R :=
  let '(x2, x1) := row0 (_plane self) in arctan2 x1 x2.

(** The [fov] property: [np.linalg.norm(self._plane[1])]. *)
Definition fov (self : Camera) : R := norm (row1 (_plane self)).

(** The [theta] setter. *)
Definition set_theta (self : Camera) (t : R) : Camera :=
  _build_plane self t (fov self).

(** The [fov] setter. *)
Definition set_fov (self : Camera) (f : R) : Camera :=
  _build_plane self (theta self) f.

(** [Camera.rotate(theta)]. *)
Definition rotate (self : Camera) (t : R) : Camera :=
  {| pos := pos self; _plane := _plane self @ rotation_matrix t |}.

(** The plane the specification describes for a camera built with direction
    [t] and (already clamped) field of view [f], entry by entry. *)
Definition spec_plane (t f : R) : mat2 :=
  {| a00 := 1001 / 1000 * cos t - 1 / 1000 * sin t;
     a01 := 1001 / 1000 * sin t + 1 / 1000 * cos t;
     a10 := - (f * sin t);
     a11 := f * cos t |}.

(** The angle of the direction row of a freshly built plane at [theta = 0]:
    the direction [(1.001, 0.001)] is not the x axis. *)
Definition direction_offset : R := atan (1 / 1001).

(** ** numpy: arrays of one and two dimensions *)

(** An [ndarray] of dimension 1 (shape [(length xs,)]) or of dimension 2.
    [Array2 n m rows] has shape [(n, m)]; the shape is kept next to the
    content because an array of shape [(0, m)] has no row to tell [m]. *)
Inductive ndarray (A : Type) : Type :=
| Array1 (xs : list A)
| Array2 (n m : nat) (rows : list (list A)).

Arguments Array1 {A} xs.
Arguments Array2 {A} n m rows.

(** The content of a 2-D array agrees with its shape. *)
Definition well_shaped {A : Type} (a : ndarray A) : Prop :=
  match a with
  | Array1 _ => True
  | Array2 n m rows =>
      length rows = n /\ Forall (fun r => length r = m) rows
  end.

Definition ndim {A : Type} (a : ndarray A) : nat :=
  match a with Array1 _ => 1 | Array2 _ _ _ => 2 end.

Definition shape {A : Type} (a : ndarray A) : list nat :=
  match a with
  | Array1 xs => [length xs]
  | Array2 n m _ => [n; m]
  end.

(** All the entries, in storage order. *)
Definition cells {A : Type} (a : ndarray A) : list A :=
  match a with
  | Array1 xs => xs
  | Array2 _ _ rows => concat rows
  end.

(** An index into an axis of length [n]: a negative index counts from the
    end, and an index outside [-n, n) raises [IndexError] ([None]). *)
Definition axis_index (n : nat) (i : Z) : option nat :=
  if (0 <=? i)%Z then
    if (i <? Z.of_nat n)%Z then Some (Z.to_nat i) else None
  else
    if (- Z.of_nat n <=? i)%Z then Some (Z.to_nat (Z.of_nat n + i)) else None.

(** [a[i, j]]: two indices into a 1-D array raise [IndexError]. *)
Definition getitem2 {A : Type} (a : ndarray A) (i j : Z) : option A :=
  match a with
  | Array1 _ => None
  | Array2 n m rows =>
      match axis_index n i, axis_index m j with
      | Some r, Some c =>
          match nth_error rows r with
          | Some row => nth_error row c
          | None => None
          end
      | _, _ => None
      end
  end.

(** [np.array(rows, dtype=...)] of a list of lists: an empty list gives the
    empty 1-D array, rows of one length [m] give shape [(len(rows), m)], and
    rows of different lengths raise [ValueError] ([None]). *)
Definition np_array {A : Type} (rows : list (list A)) : option (ndarray A) :=
  match rows with
  | [] => Some (Array1 [])
  | r :: _ =>
      if forallb (fun r' => Nat.eqb (length r') (length r)) rows
      then Some (Array2 (length rows) (length r) rows)
      else None
  end.

(** Column [x] of a list of rows. *)
Definition column {A : Type} (rows : list (list A)) (x : nat) : list A :=
  flat_map (fun row => match nth_error row x with
                       | Some v => [v]
                       | None => []
                       end) rows.

(** [a.T]: a 1-D array is its own transpose. *)
Definition transpose {A : Type} (a : ndarray A) : ndarray A :=
  match a with
  | Array1 xs => Array1 xs
  | Array2 n m rows => Array2 m n (map (column rows) (seq 0 m))
  end.

(** ** Python builtins *)

(** [int(x)] of a float: truncation towards zero. *)
Definition py_int (x : R) : Z :=
  if Rle_dec 0 x then Zfloor x else Zceil x.

(** A [str] whose code points are below 256. *)
Definition str : Type := list ascii.

(** The line boundaries of [str.splitlines] among those code points:
    LF, VT, FF, CR, FS, GS, RS and NEL. *)
Definition is_line_boundary (c : ascii) : bool :=
  let n := nat_of_ascii c in
  ((10 <=? n) && (n <=? 13) || (28 <=? n) && (n <=? 30) || (n =? 133))%nat.

Definition is_CR (c : ascii) : bool := (nat_of_ascii c =? 13)%nat.
Definition is_LF (c : ascii) : bool := (nat_of_ascii c =? 10)%nat.

(** [str.splitlines()], with [cur] the characters of the line being read, in
    reverse.  CR LF is one boundary; a last line without a boundary is kept
    when it has a character. *)
Fixpoint splitlines_from (cur : str) (s : str) : list str :=
  match s with
  | [] => match cur with [] => [] | _ => [rev cur] end
  | c :: rest =>
      if is_line_boundary c then
        rev cur ::
          match rest with
          | c' :: rest' =>
              if is_CR c && is_LF c' then splitlines_from [] rest'
              else splitlines_from [] rest
          | [] => splitlines_from [] rest
          end
      else splitlines_from (c :: cur) rest
  end.

Definition splitlines (s : str) : list str := splitlines_from [] s.

Definition is_digit (c : ascii) : bool :=
  let n := nat_of_ascii c in ((48 <=? n) && (n <=? 57))%nat.

(** The value of a digit character. *)
Definition digit_value (c : ascii) : N := N.of_nat (nat_of_ascii c - 48).

(** [int(cell)] of a one-character string: its digit, or [ValueError]. *)
Definition int_of_char (c : ascii) : option N :=
  if is_digit c then Some (digit_value c) else None.

(** A list comprehension whose body may raise. *)
Fixpoint traverse {A B : Type} (f : A -> option B) (l : list A)
  : option (list B) :=
  match l with
  | [] => Some []
  | x :: l' =>
      match f x with
      | Some y =>
          match traverse f l' with
          | Some ys => Some (y :: ys)
          | None => None
          end
      | None => None
      end
  end.

(** ** read_assets.py *)

(** [read_map]: [text] is what [path.read_text()] returned.  Every digit fits
    [uint32], so the [dtype] conversion changes no value. *)
Definition read_map (text : str) : option (ndarray N) :=
  match traverse (traverse int_of_char) (splitlines text) with
  | Some rows =>
      match np_array rows with
      | Some a => Some (transpose a)
      | None => None
      end
  | None => None
  end.

(** ** sprite.py *)

Record Sprite : Type := mkSprite { sprite_pos : R * R; texture_index : Z }.

(** One record of the sprite JSON file: [{"pos": [x, y], "texture_index": i}]. *)
Record sprite_data : Type :=
  mkSpriteData { data_pos : R * R; data_texture_index : Z }.

(** [iter_from_json]: [data] is what [json.load] returned; the sprites are
    listed in the order the generator yields them. *)
Definition iter_from_json (data : list sprite_data) : list Sprite :=
  map (fun d => {| sprite_pos := data_pos d;
                   texture_index := data_texture_index d |}) data.

(** ** engine.py *)

Definition set_pos (camera : Camera) (p : R * R) : Camera :=
  {| pos := p; _plane := _plane camera |}.

(** [_move_to(camera, game_map, pos)]; [None] is an [IndexError] raised by a
    lookup in [game_map].  The lookups are made in the order of the
    [if]/[elif] chain, each only when the ones before found a wall. *)
Definition _move_to (camera : Camera) (game_map : ndarray N) (p : R * R)
  : option Camera :=
  let '(old_x, old_y) := pos camera in
  let '(x, y) := p in
  match getitem2 game_map (py_int x) (py_int y) with
  | None => None
  | Some c1 =>
      if (c1 =? 0)%N then Some (set_pos camera (x, y))
      else
        match getitem2 game_map (py_int x) (py_int old_y) with
        | None => None
        | Some c2 =>
            if (c2 =? 0)%N then Some (set_pos camera (x, old_y))
            else
              match getitem2 game_map (py_int old_x) (py_int y) with
              | None => None
              | Some c3 =>
                  if (c3 =? 0)%N then Some (set_pos camera (old_x, y))
                  else Some camera
              end
        end
  end.

(** The map cell a position lies in. *)
Definition cell_at (game_map : ndarray N) (p : R * R) : option N :=
  getitem2 game_map (py_int (fst p)) (py_int (snd p)).

(** A failed precondition, raised as an exception. *)
Inductive error : Type := PreconditionViolation.

(** A sprite's texture index names one of [n] loaded sprite textures. *)
Definition sprite_texture_loaded (n : nat) (s : Sprite) : bool :=
  ((0 <=? texture_index s) && (texture_index s <? Z.of_nat n))%Z.

(** A map cell is empty, or is a wall [v] whose texture [v - 1] is one of
    [n] loaded wall textures. *)
Definition wall_texture_loaded (n : nat) (v : N) : bool :=
  (N.to_nat v <=? n)%nat.

(** What a [Raycaster] is built over. *)
Record Raycaster : Type := mkRaycaster {
  caster_map : ndarray N;
  caster_sprites : list Sprite;
  caster_wall_textures : list (ndarray N);
  caster_sprite_textures : list (ndarray ascii)
}.

(** Modelled from the spec: [Raycaster.__init__] of [raycaster.py], which is
    not among the sources.  Section 7: a sprite or wall texture index with no
    matching loaded texture is a configuration error surfaced as a fatal
    precondition violation at load time, before any [cast] call. *)
Definition Raycaster_init
    (game_map : ndarray N) (sprites : list Sprite)
    (wall_textures : list (ndarray N))
    (sprite_textures : list (ndarray ascii)) : error + Raycaster :=
  if forallb (sprite_texture_loaded (length sprite_textures)) sprites
     && forallb (wall_texture_loaded (length wall_textures)) (cells game_map)
  then inr (mkRaycaster game_map sprites wall_textures sprite_textures)
  else inl PreconditionViolation.

(** The [Engine] dataclass, with the [caster] attribute of
    [__post_init__]. *)
Record Engine : Type := mkEngine {
  camera : Camera;
  game_map : ndarray N;
  sprites : list Sprite;
  wall_textures : list (ndarray N);
  sprite_textures : list (ndarray ascii);
  rotation_speed : R;
  translation_speed : R;
  caster : Raycaster
}.

Definition default_rotation_speed : R := 3.
Definition default_translation_speed : R := 5.

(** The generated [Engine.__init__] followed by [__post_init__]:
    [self.caster = Raycaster(self)].  An exception of the [Raycaster]
    constructor leaves no engine. *)
Definition Engine_init
    (cam : Camera) (gmap : ndarray N) (sps : list Sprite)
    (walls : list (ndarray N)) (stex : list (ndarray ascii))
    (rs ts : R) : error + Engine :=
  match Raycaster_init gmap sps walls stex with
  | inl e => inl e
  | inr c => inr (mkEngine cam gmap sps walls stex rs ts c)
  end.

(** ** More of numpy: vectors of two components *)

(** [k * v] for a scalar and a vector. *)
Definition scale (k : R) (v : R * R) : R * R := (k * fst v, k * snd v).

(** [v + p] for a vector and a tuple of two. *)
Definition vadd (v p : R * R) : R * R := (fst v + fst p, snd v + snd p).

(** [v @ a]: a row vector times a 2x2 array. *)
Definition vecmat (v : R * R) (a : mat2) : R * R :=
  (fst v * a00 a + snd v * a10 a, fst v * a01 a + snd v * a11 a).

(** [-a] on 2x2 arrays. *)
Definition mat_neg (a : mat2) : mat2 :=
  {| a00 := - a00 a; a01 := - a01 a; a10 := - a10 a; a11 := - a11 a |}.

Definition dot (v w : R * R) : R := fst v * fst w + snd v * snd w.

Definition det (a : mat2) : R := a00 a * a11 a - a01 a * a10 a.

(** ** More of read_assets.py *)

(** [_read_wall] of [read_wall_textures]: as [read_map], without the
    [dtype].  Rows of different lengths raise with numpy 1.24 and later. *)
Definition _read_wall (text : str) : option (ndarray N) :=
  match traverse (traverse int_of_char) (splitlines text) with
  | Some rows =>
      match np_array rows with
      | Some a => Some (transpose a)
      | None => None
      end
  | None => None
  end.

(** [read_wall_textures]: [texts] are what [path.read_text()] returned for
    the paths given, in order. *)
Definition read_wall_textures (texts : list str)
  : option (list (ndarray N)) :=
  traverse _read_wall texts.



(** *** The JSON document as [json.load] returns it *)

(** A parsed JSON value.  The pairs of a [JDict] are the items of the
    Python [dict], whose keys are distinct. *)
#[warnings="-register-all"] Inductive json : Type :=
| JNull
| JBool (b : bool)
| JInt (z : Z)
| JFloat (r : R)
| JStr (s : str)
| JList (items : list json)
| JDict (items : list (str * json)).

Inductive py_exception : Type :=
| KeyError (k : str)
| TypeError.

Fixpoint str_eqb (s t : str) : bool :=
  match s, t with
  | [], [] => true
  | c :: s', d :: t' => Ascii.eqb c d && str_eqb s' t'
  | _, _ => false
  end.

Fixpoint dict_get (k : str) (items : list (str * json)) : option json :=
  match items with
  | [] => None
  | (k', v) :: rest => if str_eqb k k' then Some v else dict_get k rest
  end.

(** [v[k]] for a string key [k]: only a [dict] can be indexed by a string. *)
Definition getitem_str (v : json) (k : str) : py_exception + json :=
  match v with
  | JDict items =>
      match dict_get k items with
      | Some x => inr x
      | None => inl (KeyError k)
      end
  | _ => inl TypeError
  end.

(** The elements [for x in v] and [tuple(v)] go through: those of a list,
    the characters of a string, the keys of a dict; anything else is not
    iterable. *)
Definition py_iter (v : json) : py_exception + list json :=
  match v with
  | JList items => inr items
  | JStr s => inr (map (fun c => JStr [c]) s)
  | JDict items => inr (map (fun kv => JStr (fst kv)) items)
  | _ => inl TypeError
  end.

(** A [Sprite] object as the dataclass holds it: the fields are not
    checked against their annotations. *)
Record SpriteObject : Type :=
  mkSpriteObject { object_pos : list json; object_texture_index : json }.

Definition key_pos : str := ["p"; "o"; "s"]%char.
Definition key_texture_index : str :=
  ["t"; "e"; "x"; "t"; "u"; "r"; "e"; "_"; "i"; "n"; "d"; "e"; "x"]%char.

(** The loop of [iter_from_json]: the sprites yielded, in order, and the
    exception that ended the generator, if one did. *)
Fixpoint yield_sprites (items : list json)
  : list SpriteObject * option py_exception :=
  match items with
  | [] => ([], None)
  | sprite_data :: rest =>
      match getitem_str sprite_data key_pos with
      | inl e => ([], Some e)
      | inr p =>
          match py_iter p with
          | inl e => ([], Some e)
          | inr pos_tuple =>
              match getitem_str sprite_data key_texture_index with
              | inl e => ([], Some e)
              | inr ti =>
                  let '(sprites, e) := yield_sprites rest in
                  (mkSpriteObject pos_tuple ti :: sprites, e)
              end
          end
      end
  end.

(** [iter_from_json] on whatever document [json.load] returned. *)
Definition iter_from_json_value (data : json)
  : list SpriteObject * option py_exception :=
  match py_iter data with
  | inl e => ([], Some e)
  | inr items => yield_sprites items
  end.

(** The JSON record and the object of a well typed sprite. *)
Definition json_of_sprite_data (d : sprite_data) : json :=
  JDict [(key_pos, JList [JFloat (fst (data_pos d)); JFloat (snd (data_pos d))]);
         (key_texture_index, JInt (data_texture_index d))].

Definition object_of_sprite (s : Sprite) : SpriteObject :=
  mkSpriteObject [JFloat (fst (sprite_pos s)); JFloat (snd (sprite_pos s))]
                 (JInt (texture_index s)).

(** ** More of engine.py *)

(** The keys [pynput] reports: a member of the [Key] enumeration, a
    [KeyCode] of a character, or [None]. *)
Inductive key : Type :=
| Key_esc | Key_up | Key_down | Key_left | Key_right
| Key_other (code : nat)
| KeyCode (char : ascii)
| Key_none.

Definition key_eqb (a b : key) : bool :=
  match a, b with
  | Key_esc, Key_esc | Key_up, Key_up | Key_down, Key_down
  | Key_left, Key_left | Key_right, Key_right | Key_none, Key_none => true
  | Key_other n, Key_other m => Nat.eqb n m
  | KeyCode c, KeyCode d => Ascii.eqb c d
  | _, _ => false
  end.

(** The keys of the [KEY_BINDINGS] dict. *)
Inductive binding : Type :=
| quit | toggle_texture
| forward_1 | forward_2 | backward_1 | backward_2
| turn_left_1 | turn_left_2 | turn_right_1 | turn_right_2
| strafe_left | strafe_right.

Definition KEY_BINDINGS (b : binding) : key :=
  match b with
  | quit => Key_esc
  | toggle_texture => KeyCode "t"
  | forward_1 => Key_up
  | forward_2 => KeyCode "w"
  | backward_1 => Key_down
  | backward_2 => KeyCode "s"
  | turn_left_1 => Key_left
  | turn_left_2 => KeyCode "a"
  | turn_right_1 => Key_right
  | turn_right_2 => KeyCode "d"
  | strafe_left => KeyCode "q"
  | strafe_right => KeyCode "e"
  end.

Definition STRAFE_ROT : mat2 := rotation_matrix (3 * PI / 2).

(** [pressed_keys], a [defaultdict(bool)]: a key never written reads
    [False]. *)
Definition key_state : Type := key -> bool.

Definition no_key_pressed : key_state := fun _ => false.

(** [pressed_keys[k] = v]. *)
Definition set_key (pressed_keys : key_state) (k : key) (v : bool)
  : key_state :=
  fun k' => if key_eqb k' k then v else pressed_keys k'.

(** [on_press] and [on_release] of [_run]. *)
Definition on_press (pressed_keys : key_state) (k : key) : key_state :=
  set_key pressed_keys k true.
Definition on_release (pressed_keys : key_state) (k : key) : key_state :=
  set_key pressed_keys k false.

(** [_is_pressed] of the binding names given. *)
Definition _is_pressed (pressed_keys : key_state) (args : list binding)
  : bool :=
  existsb (fun arg => pressed_keys (KEY_BINDINGS arg)) args.

Definition with_camera (e : Engine) (cam : Camera) : Engine :=
  mkEngine cam (game_map e) (sprites e) (wall_textures e)
    (sprite_textures e) (rotation_speed e) (translation_speed e) (caster e).

Definition with_caster (e : Engine) (c : Raycaster) : Engine :=
  mkEngine (camera e) (game_map e) (sprites e) (wall_textures e)
    (sprite_textures e) (rotation_speed e) (translation_speed e) c.

(** One [_move_to] of [_handle_keys], on the camera of the engine. *)
Definition move_camera (e : Engine) (next_pos : R * R) : option Engine :=
  match _move_to (camera e) (game_map e) next_pos with
  | Some cam => Some (with_camera e cam)
  | None => None
  end.

Section HandleKeys.

(** [Raycaster.toggle_textures] is in [raycaster.py], which is not among the
    sources: it is a parameter here, acting on the caster. *)
Variable toggle_textures : Raycaster -> Raycaster.

(** The first [if] of [_handle_keys]. *)
Definition handle_toggle (e : Engine) (pressed_keys : key_state)
  : Engine * key_state :=
  if pressed_keys (KEY_BINDINGS toggle_texture)
  then (with_caster e (toggle_textures (caster e)),
        set_key pressed_keys (KEY_BINDINGS toggle_texture) false)
  else (e, pressed_keys).

(** The turn of [_handle_keys]. *)
Definition handle_turn (e : Engine) (left right : bool) (dt : R) : Engine :=
  if left && negb right
  then with_camera e (rotate (camera e) (- rotation_speed e * dt))
  else if right && negb left
  then with_camera e (rotate (camera e) (rotation_speed e * dt))
  else e.

(** The walk of [_handle_keys]. *)
Definition handle_walk (e : Engine) (forward backward : bool) (dt : R)
  : option Engine :=
  if forward && negb backward
  then move_camera e
         (vadd (scale (translation_speed e * dt) (row0 (_plane (camera e))))
               (pos (camera e)))
  else if backward && negb forward
  then move_camera e
         (vadd (scale (- translation_speed e * dt)
                  (row0 (_plane (camera e))))
               (pos (camera e)))
  else Some e.

(** The side step of [_handle_keys]. *)
Definition handle_strafe (e : Engine) (s_left s_right : bool) (dt : R)
  : option Engine :=
  if s_left && negb s_right
  then move_camera e
         (vadd (vecmat (scale (translation_speed e * dt)
                          (row0 (_plane (camera e))))
                       STRAFE_ROT)
               (pos (camera e)))
  else if s_right && negb s_left
  then move_camera e
         (vadd (vecmat (scale (translation_speed e * dt)
                          (row0 (_plane (camera e))))
                       (mat_neg STRAFE_ROT))
               (pos (camera e)))
  else Some e.

(** [Engine._handle_keys(pressed_keys, dt)]; [None] is an [IndexError] of
    [_move_to]. *)
Definition _handle_keys (e : Engine) (pressed_keys : key_state) (dt : R)
  : option (Engine * key_state) :=
  let '(e1, pressed_keys) := handle_toggle e pressed_keys in
  let left := _is_pressed pressed_keys [turn_left_1; turn_left_2] in
  let right := _is_pressed pressed_keys [turn_right_1; turn_right_2] in
  let forward := _is_pressed pressed_keys [forward_1; forward_2] in
  let backward := _is_pressed pressed_keys [backward_1; backward_2] in
  let s_left := _is_pressed pressed_keys [strafe_left] in
  let s_right := _is_pressed pressed_keys [strafe_right] in
  let e2 := handle_turn e1 left right dt in
  match handle_walk e2 forward backward dt with
  | None => None
  | Some e3 =>
      match handle_strafe e3 s_left s_right dt with
      | None => None
      | Some e4 => Some (e4, pressed_keys)
      end
  end.

End HandleKeys.

(** A room of shape (4, 3): walls all around, the cells (1, 1) and (2, 1)
    empty. *)
Definition small_room : ndarray N :=
  Array2 4 3 [[1; 1; 1]; [1; 0; 1]; [1; 0; 1]; [1; 1; 1]]%N.

(** The characters of a two-line map file, [101] and [110], with a line
    feed after each line. *)
Definition two_line_map : str :=
  ["1"; "0"; "1"; "010"; "1"; "1"; "0"; "010"]%char.

(** ** Predicates of the statements below *)

(** What stays as it is between two states of the engine: everything but
    the position of the camera, the angle of its plane and the caster. *)
Definition same_world (e e' : Engine) : Prop :=
  game_map e' = game_map e
  /\ sprites e' = sprites e
  /\ wall_textures e' = wall_textures e
  /\ sprite_textures e' = sprite_textures e
  /\ rotation_speed e' = rotation_speed e
  /\ translation_speed e' = translation_speed e
  /\ fov (camera e') = fov (camera e)
  /\ norm (row0 (_plane (camera e'))) = norm (row0 (_plane (camera e)))
  /\ (cell_at (game_map e) (pos (camera e)) = Some 0%N ->
      cell_at (game_map e') (pos (camera e')) = Some 0%N).

(** The lines of a file that hold a grid: at least one line, and every line
    as long as the first. *)
Definition grid_lines (lines : list str) : Prop :=
  lines <> []
  /\ Forall (fun line => length line = length (hd [] lines)) lines.

(** What a texture array holds of the text it was read from: the shape is
    (length of a line, number of lines) and the entry (x, y) comes from the
    character at column x of line y. *)
Definition transposed_grid {A : Type} (value : ascii -> A) (text : str)
    (a : ndarray A) : Prop :=
  well_shaped a
  /\ shape a = [length (hd [] (splitlines text)); length (splitlines text)]
  /\ forall (x y : nat) (line : str) (c : ascii),
       nth_error (splitlines text) y = Some line ->
       nth_error line x = Some c ->
       getitem2 a (Z.of_nat x) (Z.of_nat y) = Some (value c).

(** An engine in the small room, for examples. *)
Definition small_engine : Engine :=
  mkEngine (mkCamera (1, 1) identity) small_room [] [] []
    default_rotation_speed default_translation_speed
    (mkRaycaster small_room [] [] []).

(** * Properties *)

(** ** Rotation matrices *)

Lemma matmul_assoc (a b c : mat2) : (a @ b) @ c = a @ (b @ c).
Proof.
  destruct a, b, c; unfold matmul; simpl; f_equal; ring.
Qed.

Lemma matmul_identity_r (a : mat2) : a @ identity = a.
Proof.
  destruct a; unfold matmul, identity; simpl; f_equal; ring.
Qed.

Lemma sin_cos_sq (t : R) : sin t * sin t + cos t * cos t = 1.
Proof.
  generalize (sin2_cos2 t); unfold Rsqr; auto.
Qed.

(** [R(t) . R(-t)] is the identity. *)
Lemma rotation_matrix_opp (t : R) :
  rotation_matrix t @ rotation_matrix (- t) = identity.
Proof.
  unfold rotation_matrix, matmul, identity; simpl.
  rewrite cos_neg, sin_neg.
  pose proof (sin_cos_sq t) as H.
  f_equal; try ring; lra.
Qed.

(** A rotation keeps the Euclidean norm of a row vector. *)
Lemma norm_rotation (a b t : R) :
  norm (a * cos t + b * - sin t, a * sin t + b * cos t) = norm (a, b).
Proof.
  unfold norm; simpl; f_equal.
  pose proof (sin_cos_sq t) as H.
  replace ((a * cos t + b * - sin t) * (a * cos t + b * - sin t)
           + (a * sin t + b * cos t) * (a * sin t + b * cos t))
    with ((a * a + b * b) * (sin t * sin t + cos t * cos t)) by ring.
  rewrite H; ring.
Qed.

(** ** The camera *)

(** The clamp of [Camera.__init__] is the clamp to the interval [[0, 1]]. *)
Lemma clamp_fov_interval (f : R) : clamp_fov f = Rmax 0 (Rmin 1 f).
Proof.
  unfold clamp_fov, Rmax, Rmin.
  destruct (Rlt_dec 1 f) as [H1 | H1].
  - destruct (Rle_dec 1 f); [| lra].
    destruct (Rle_dec 0 1); lra.
  - destruct (Rle_dec 1 f) as [H2 | H2].
    + assert (f = 1) by lra; subst f.
      destruct (Rlt_dec 1 0); [lra |].
      destruct (Rle_dec 0 1); lra.
    + destruct (Rlt_dec f 0); destruct (Rle_dec 0 f); lra.
Qed.

Lemma clamp_fov_bounds (f : R) : 0 <= clamp_fov f <= 1.
Proof.
  unfold clamp_fov.
  destruct (Rlt_dec 1 f); [lra |].
  destruct (Rlt_dec f 0); lra.
Qed.

Lemma build_plane_entries (c : Camera) (t f : R) :
  _plane (_build_plane c t f) = spec_plane t f.
Proof.
  unfold _build_plane, spec_plane, initial_plane, rotation_matrix, matmul.
  simpl; f_equal; ring.
Qed.

(** The field of view read back from a built plane is the absolute value of
    the one it was built with. *)
Lemma fov_build_plane (c : Camera) (t f : R) :
  fov (_build_plane c t f) = Rabs f.
Proof.
  unfold fov, row1; rewrite build_plane_entries; unfold spec_plane, norm.
  simpl.
  replace (- (f * sin t) * - (f * sin t) + f * cos t * (f * cos t))
    with (Rsqr f * (sin t * sin t + cos t * cos t)) by (unfold Rsqr; ring).
  rewrite sin_cos_sq, Rmult_1_r.
  apply sqrt_Rsqr_abs.
Qed.

(** C2.  [Camera(pos, theta, fov)] stores [pos], and its plane is the
    matrix product of [[1.001, 0.001], [0, f]] with
    [[cos theta, sin theta], [-sin theta, cos theta]], where [f] is [fov]
    clamped to the interval from 0 to 1; entry by entry this is the plane of
    the specification. *)
Theorem Camera_init_builds_plane (p : R * R) (t f : R) :
  pos (Camera_init p t f) = p
  /\ _plane (Camera_init p t f)
     = Mat2 (1001 / 1000) (1 / 1000) 0 (Rmax 0 (Rmin 1 f))
       @ Mat2 (cos t) (sin t) (- sin t) (cos t)
  /\ _plane (Camera_init p t f) = spec_plane t (Rmax 0 (Rmin 1 f)).
Proof.
  split; [reflexivity |].
  split.
  - unfold Camera_init, _build_plane; simpl.
    rewrite clamp_fov_interval; reflexivity.
  - unfold Camera_init; rewrite build_plane_entries, clamp_fov_interval.
    reflexivity.
Qed.

(** C3.  [rotate(dt)] replaces the plane by its product with
    [[cos dt, sin dt], [-sin dt, cos dt]] on the right, and leaves the
    position as it was. *)
Theorem rotate_multiplies_plane (c : Camera) (dt : R) :
  _plane (rotate c dt)
  = _plane c @ Mat2 (cos dt) (sin dt) (- sin dt) (cos dt)
  /\ row0 (_plane (rotate c dt))
     = (a00 (_plane c) * cos dt - a01 (_plane c) * sin dt,
        a00 (_plane c) * sin dt + a01 (_plane c) * cos dt)
  /\ row1 (_plane (rotate c dt))
     = (a10 (_plane c) * cos dt - a11 (_plane c) * sin dt,
        a10 (_plane c) * sin dt + a11 (_plane c) * cos dt)
  /\ pos (rotate c dt) = pos c.
Proof.
  repeat split.
  - unfold row0, rotate, matmul, rotation_matrix; simpl; f_equal; ring.
  - unfold row1, rotate, matmul, rotation_matrix; simpl; f_equal; ring.
Qed.

(** C4.  In exact real arithmetic, [rotate(t)] followed by [rotate(-t)]
    gives back the plane (and the whole camera) one started from. *)
Theorem rotate_then_rotate_back (c : Camera) (t : R) :
  _plane (rotate (rotate c t) (- t)) = _plane c
  /\ rotate (rotate c t) (- t) = c.
Proof.
  assert (H : _plane (rotate (rotate c t) (- t)) = _plane c).
  { unfold rotate; simpl.
    rewrite matmul_assoc, rotation_matrix_opp.
    apply matmul_identity_r. }
  split; [exact H |].
  destruct c as [p pl]; unfold rotate in *; simpl in *.
  rewrite H; reflexivity.
Qed.

(** C9.  In exact real arithmetic, [rotate(t)] leaves the value of the [fov]
    property, the norm of row 1 of the plane, as it was. *)
Theorem rotate_preserves_fov (c : Camera) (t : R) :
  fov (rotate c t) = fov c.
Proof.
  unfold fov, rotate, row1, matmul, rotation_matrix; simpl.
  apply norm_rotation.
Qed.

(** ** The angle of a vector *)

Lemma cos_pos_range (a : R) :
  - PI < a <= PI -> 0 < cos a -> - (PI / 2) < a < PI / 2.
Proof.
  intros [Hl Hu] Hc.
  pose proof PI_RGT_0 as Hpi.
  split.
  - destruct (Rlt_dec (- (PI / 2)) a) as [H | H]; [exact H | exfalso].
    assert (Hle : cos (- a) <= 0) by (apply cos_le_0; lra).
    rewrite cos_neg in Hle; lra.
  - destruct (Rlt_dec a (PI / 2)) as [H | H]; [exact H | exfalso].
    assert (Hle : cos a <= 0) by (apply cos_le_0; lra).
    lra.
Qed.

Lemma cos_neg_range (a : R) :
  - PI < a <= PI -> cos a < 0 -> a < - (PI / 2) \/ PI / 2 < a.
Proof.
  intros [Hl Hu] Hc.
  destruct (Rlt_dec a (- (PI / 2))) as [H | H]; [left; exact H |].
  destruct (Rlt_dec (PI / 2) a) as [H' | H']; [right; exact H' |].
  exfalso.
  assert (0 <= cos a) by (apply cos_ge_0; lra).
  lra.
Qed.

Lemma tan_shift_PI (a : R) : tan (a + PI) = tan a.
Proof.
  unfold tan; rewrite neg_sin, neg_cos.
  unfold Rdiv.
  destruct (Req_dec (cos a) 0) as [H | H].
  - rewrite H, Ropp_0, Rinv_0; ring.
  - field; exact H.
Qed.

Lemma polar_quotient (r a : R) :
  0 < r -> cos a <> 0 -> r * sin a / (r * cos a) = tan a.
Proof.
  intros Hr Hc; unfold tan; field; split; lra.
Qed.

Lemma arctan2_polar (r a : R) :
  0 < r -> - PI < a <= PI -> arctan2 (r * sin a) (r * cos a) = a.
Proof.
  intros Hr Ha.
  pose proof PI_RGT_0 as Hpi.
  unfold arctan2.
  destruct (Rlt_dec 0 (r * cos a)) as [Hx | Hx].
  - assert (Hc : 0 < cos a) by nra.
    rewrite polar_quotient by lra.
    apply atan_tan, cos_pos_range; assumption.
  - destruct (Rlt_dec (r * cos a) 0) as [Hx' | Hx'].
    + assert (Hc : cos a < 0) by nra.
      rewrite polar_quotient by lra.
      destruct (cos_neg_range a Ha Hc) as [Hlow | Hhigh].
      * assert (Hs : sin a < 0) by (apply sin_lt_0_var; lra).
        destruct (Rle_dec 0 (r * sin a)) as [Hy | Hy]; [nra |].
        rewrite <- (tan_shift_PI a), atan_tan by lra.
        ring.
      * assert (Hs : 0 <= sin a) by (apply sin_ge_0; lra).
        destruct (Rle_dec 0 (r * sin a)) as [Hy | Hy]; [| nra].
        replace (tan a) with (tan (a - PI))
          by (rewrite <- (tan_shift_PI (a - PI)); f_equal; ring).
        rewrite atan_tan by lra.
        ring.
    + assert (Hc : cos a = 0) by nra.
      assert (Hcases : a = PI / 2 \/ a = - (PI / 2)).
      { destruct (Rtotal_order a (PI / 2)) as [H | [H | H]].
        - destruct (Rtotal_order a (- (PI / 2))) as [H' | [H' | H']].
          + assert (cos (- a) < 0) by (apply cos_lt_0; lra).
            rewrite cos_neg in *; lra.
          + right; exact H'.
          + assert (0 < cos a) by (apply cos_gt_0; lra).
            lra.
        - left; exact H.
        - assert (cos a < 0) by (apply cos_lt_0; lra).
          lra. }
      destruct Hcases as [-> | ->].
      * rewrite sin_PI2.
        destruct (Rlt_dec 0 _); [reflexivity | lra].
      * rewrite sin_neg, sin_PI2.
        destruct (Rlt_dec 0 _); [lra |].
        destruct (Rlt_dec _ 0); [reflexivity | lra].
Qed.

Lemma arctan2_range (y x : R) : - PI < arctan2 y x <= PI.
Proof.
  pose proof PI_RGT_0 as Hpi.
  pose proof (atan_bound (y / x)) as [Hl Hu].
  unfold arctan2.
  destruct (Rlt_dec 0 x) as [Hx | Hx]; [lra |].
  destruct (Rlt_dec x 0) as [Hx' | Hx'].
  - destruct (Rle_dec 0 y) as [Hy | Hy].
    + assert (Hq : y / x <= 0).
      { unfold Rdiv. assert (/ x < 0) by (apply Rinv_lt_0_compat; lra). nra. }
      assert (atan (y / x) <= 0).
      { destruct Hq as [Hq | Hq].
        - left; rewrite <- atan_0; apply atan_increasing; exact Hq.
        - rewrite Hq, atan_0; lra. }
      lra.
    + assert (Hq : 0 < y / x).
      { unfold Rdiv. assert (/ x < 0) by (apply Rinv_lt_0_compat; lra). nra. }
      assert (0 < atan (y / x)).
      { rewrite <- atan_0; apply atan_increasing; exact Hq. }
      lra.
  - destruct (Rlt_dec 0 y); [lra |].
    destruct (Rlt_dec y 0); lra.
Qed.

(** ** The direction offset *)

Lemma direction_offset_bounds : 0 < direction_offset < PI / 2.
Proof.
  unfold direction_offset; split.
  - rewrite <- atan_0; apply atan_increasing; lra.
  - pose proof (atan_bound (1 / 1001)); lra.
Qed.

Lemma direction_offset_cos : 0 < cos direction_offset.
Proof.
  pose proof direction_offset_bounds.
  apply cos_gt_0; lra.
Qed.

Lemma direction_offset_sin :
  sin direction_offset = cos direction_offset / 1001.
Proof.
  pose proof direction_offset_cos as Hc.
  pose proof (tan_atan (1 / 1001)) as Ht.
  fold direction_offset in Ht; unfold tan in Ht.
  apply (Rmult_eq_compat_r (cos direction_offset)) in Ht.
  unfold Rdiv in Ht; rewrite Rmult_assoc, Rinv_l, Rmult_1_r in Ht by lra.
  lra.
Qed.

(** The offset is no rounding residue: it is more than 1/2002 radian. *)
Lemma direction_offset_lower : 1 / 2002 < direction_offset.
Proof.
  pose proof direction_offset_bounds as [H0 _].
  pose proof direction_offset_cos as Hc.
  pose proof direction_offset_sin as Hs.
  pose proof (sin_cos_sq direction_offset) as Hsq.
  pose proof (sin_lt_x _ H0) as Hlt.
  assert (1 / 2 < cos direction_offset) by nra.
  lra.
Qed.

(** The direction row of a built plane is the vector of length
    [1.001 / cos direction_offset] at angle [t + direction_offset]. *)
Lemma build_plane_direction (c : Camera) (t f : R) :
  let rho := 1001 / 1000 / cos direction_offset in
  row0 (_plane (_build_plane c t f))
  = (rho * cos (t + direction_offset), rho * sin (t + direction_offset)).
Proof.
  pose proof direction_offset_cos as Hc.
  pose proof direction_offset_sin as Hs.
  intros rho; unfold rho.
  rewrite build_plane_entries; unfold row0, spec_plane; simpl.
  rewrite cos_plus, sin_plus, Hs.
  f_equal; field; lra.
Qed.

(** Reading [theta] from a built plane gives the angle it was built with
    plus the offset, as long as the sum is in the range of [arctan2]. *)
Lemma theta_build_plane (c : Camera) (t f : R) :
  - PI < t + direction_offset <= PI ->
  theta (_build_plane c t f) = t + direction_offset.
Proof.
  intros Ht.
  pose proof direction_offset_cos as Hc.
  unfold theta.
  rewrite build_plane_direction.
  apply arctan2_polar; [| exact Ht].
  apply Rdiv_lt_0_compat; lra.
Qed.

Lemma theta_range (c : Camera) : - PI < theta c <= PI.
Proof.
  unfold theta, row0; apply arctan2_range.
Qed.

(** Angles that differ by a full turn have the same direction row. *)
Lemma theta_build_plane_turn (c : Camera) (t f : R) :
  - PI < t + direction_offset - 2 * PI <= PI ->
  theta (_build_plane c t f) = t + direction_offset - 2 * PI.
Proof.
  intros Ht.
  pose proof direction_offset_cos as Hc.
  unfold theta.
  rewrite build_plane_direction.
  assert (Hturn : t + direction_offset
                  = t + direction_offset - 2 * PI + 2 * INR 1 * PI)
    by (simpl INR; ring).
  assert (Hcos : cos (t + direction_offset)
                 = cos (t + direction_offset - 2 * PI))
    by (rewrite Hturn at 1; apply cos_period).
  assert (Hsin : sin (t + direction_offset)
                 = sin (t + direction_offset - 2 * PI))
    by (rewrite Hturn at 1; apply sin_period).
  rewrite Hcos, Hsin.
  apply arctan2_polar; [| exact Ht].
  apply Rdiv_lt_0_compat; lra.
Qed.

(** ** Setters and accessors *)

Lemma norm_nonneg (v : R * R) : 0 <= norm v.
Proof. unfold norm; apply sqrt_pos. Qed.

Lemma fov_nonneg (c : Camera) : 0 <= fov c.
Proof. unfold fov; apply norm_nonneg. Qed.

(** The constructor stores the clamped field of view. *)
Lemma fov_Camera_init (p : R * R) (t f : R) :
  fov (Camera_init p t f) = clamp_fov f.
Proof.
  unfold Camera_init; rewrite fov_build_plane.
  apply Rabs_right; pose proof (clamp_fov_bounds f); lra.
Qed.

(** The setter stores what it is given, up to sign. *)
Lemma fov_set_fov (c : Camera) (f : R) : fov (set_fov c f) = Rabs f.
Proof. unfold set_fov; apply fov_build_plane. Qed.

(** Setting [theta] keeps the field of view. *)
Lemma fov_set_theta (c : Camera) (t : R) : fov (set_theta c t) = fov c.
Proof.
  unfold set_theta; rewrite fov_build_plane.
  apply Rabs_right, Rle_ge, fov_nonneg.
Qed.

(** Setting [fov] turns the camera by the direction offset. *)
Lemma theta_set_fov (c : Camera) (f : R) :
  theta c + direction_offset <= PI ->
  theta (set_fov c f) = theta c + direction_offset.
Proof.
  intros H.
  pose proof (theta_range c).
  pose proof direction_offset_bounds.
  unfold set_fov; apply theta_build_plane; lra.
Qed.

(** X10.  Whatever the camera and the value set, the [fov] setter changes the
    value of the [theta] accessor. *)
Lemma theta_set_fov_changes (c : Camera) (f : R) :
  theta (set_fov c f) <> theta c.
Proof.
  pose proof (theta_range c) as [Hl Hu].
  pose proof direction_offset_bounds as [Hd0 Hd1].
  pose proof PI_RGT_0 as Hpi.
  destruct (Rle_dec (theta c + direction_offset) PI) as [H | H].
  - rewrite theta_set_fov by exact H; lra.
  - unfold set_fov; rewrite theta_build_plane_turn; lra.
Qed.

Lemma theta_Camera_init_default :
  theta (Camera_init default_pos default_theta default_fov)
  = direction_offset.
Proof.
  pose proof direction_offset_bounds.
  pose proof PI_RGT_0.
  unfold Camera_init, default_theta.
  rewrite theta_build_plane; lra.
Qed.

(** C1.  The constructor clamps a field of view given outside the interval
    from 0 to 1 (2 is stored as 1, -1 as 0), but the [fov] setter does not:
    on the default camera, setting 2 stores 2 and setting -1/2 stores 1/2. *)
Theorem fov_setter_does_not_clamp :
  fov (Camera_init default_pos default_theta 2) = 1
  /\ fov (Camera_init default_pos default_theta (- (1))) = 0
  /\ fov (set_fov (Camera_init default_pos default_theta default_fov) 2) = 2
  /\ fov (set_fov (Camera_init default_pos default_theta default_fov)
            (- (1 / 2))) = 1 / 2.
Proof.
  repeat split.
  - rewrite fov_Camera_init; unfold clamp_fov.
    destruct (Rlt_dec 1 2); lra.
  - rewrite fov_Camera_init; unfold clamp_fov.
    destruct (Rlt_dec 1 (- (1))); [lra |].
    destruct (Rlt_dec (- (1)) 0); lra.
  - rewrite fov_set_fov; apply Rabs_right; lra.
  - rewrite fov_set_fov, Rabs_Ropp; apply Rabs_right; lra.
Qed.

(** The constructor clamps, whatever the position, angle and value. *)
Lemma Camera_init_clamps (p : R * R) (t f : R) :
  (1 < f -> fov (Camera_init p t f) = 1)
  /\ (f < 0 -> fov (Camera_init p t f) = 0)
  /\ (0 <= f <= 1 -> fov (Camera_init p t f) = f).
Proof.
  rewrite fov_Camera_init; unfold clamp_fov.
  destruct (Rlt_dec 1 f); [repeat split; intros; lra |].
  destruct (Rlt_dec f 0); repeat split; intros; lra.
Qed.

(** After setting [theta] to 7 on the default camera, the accessor returns
    [7 + direction_offset - 2 * PI], more than 3 radians away from 7:
    [arctan2] returns the angle of the interval [(-PI, PI]]. *)
Lemma theta_accessor_after_setting_7 :
  theta (set_theta (Camera_init default_pos default_theta default_fov) 7)
  = 7 + direction_offset - 2 * PI
  /\ 3 < Rabs (theta (set_theta
                        (Camera_init default_pos default_theta default_fov) 7)
               - 7).
Proof.
  pose proof direction_offset_bounds as [Hd0 Hd1].
  pose proof PI_4 as Hpi4.
  pose proof PI2_3_2 as Hpi3.
  assert (Heq : theta (set_theta
                         (Camera_init default_pos default_theta default_fov) 7)
                = 7 + direction_offset - 2 * PI).
  { unfold set_theta; apply theta_build_plane_turn; lra. }
  split; [exact Heq |].
  rewrite Heq.
  replace (7 + direction_offset - 2 * PI - 7)
    with (- (2 * PI - direction_offset)) by ring.
  rewrite Rabs_Ropp, Rabs_right; lra.
Qed.

(** After setting [fov] to a value between 0 and 1, the accessor returns
    that value. *)
Lemma fov_after_set_fov (c : Camera) (f : R) :
  0 <= f <= 1 -> fov (set_fov c f) = f.
Proof.
  intros Hf; rewrite fov_set_fov; apply Rabs_right; lra.
Qed.

(** C5.  The [fov] half holds: on the default camera, after setting [fov]
    to 1/2 the accessor returns 1/2.  The [theta] half does not: after
    setting [theta] to 1 on the default camera the accessor returns
    [1 + atan (1 / 1001)], and after setting [theta] to 0 on a camera built
    with angle 1 it returns [atan (1 / 1001)], each time more than 1/2002
    radian above the value set. *)
Theorem theta_setter_reads_back_offset :
  fov (set_fov (Camera_init default_pos default_theta default_fov) (1 / 2))
  = 1 / 2
  /\ theta (set_theta (Camera_init default_pos default_theta default_fov) 1)
     = 1 + atan (1 / 1001)
  /\ theta (set_theta (Camera_init default_pos 1 default_fov) 0)
     = 0 + atan (1 / 1001)
  /\ 1 / 2002 < atan (1 / 1001).
Proof.
  pose proof direction_offset_bounds as [Hd0 Hd1].
  pose proof PI2_1 as Hpi.
  fold direction_offset.
  split; [apply fov_after_set_fov; lra |].
  split; [unfold set_theta; apply theta_build_plane; lra |].
  split; [unfold set_theta; apply theta_build_plane; lra |].
  apply direction_offset_lower.
Qed.

(** C6.  Setting [theta] keeps the value of the [fov] accessor, but setting
    [fov] does not keep the value of the [theta] accessor: on the default
    camera it goes from [direction_offset] to twice that, a turn of more
    than 1/2002 radian. *)
Theorem fov_setter_turns_camera :
  fov (set_theta (Camera_init default_pos default_theta default_fov) 1)
  = fov (Camera_init default_pos default_theta default_fov)
  /\ theta (Camera_init default_pos default_theta default_fov)
     = direction_offset
  /\ theta (set_fov (Camera_init default_pos default_theta default_fov)
              (1 / 2))
     = 2 * direction_offset
  /\ 1 / 2002 < direction_offset.
Proof.
  pose proof direction_offset_bounds as [Hd0 Hd1].
  pose proof PI_RGT_0 as Hpi.
  split; [apply fov_set_theta |].
  split; [apply theta_Camera_init_default |].
  split; [| apply direction_offset_lower].
  rewrite theta_set_fov; rewrite theta_Camera_init_default; lra.
Qed.

(** ** Movement against the wall map *)

Lemma axis_index_in_bounds (n : nat) (i : Z) :
  (0 <= i < Z.of_nat n)%Z -> axis_index n i = Some (Z.to_nat i).
Proof.
  intros [H0 H1]; unfold axis_index.
  destruct (Z.leb_spec 0 i); [| lia].
  destruct (Z.ltb_spec i (Z.of_nat n)); [reflexivity | lia].
Qed.

(** An index of [-n, n) is an index of the axis. *)
Lemma axis_index_valid (n : nat) (i : Z) :
  (- Z.of_nat n <= i < Z.of_nat n)%Z ->
  exists k, axis_index n i = Some k /\ (k < n)%nat.
Proof.
  intros [H0 H1]; unfold axis_index.
  destruct (Z.leb_spec 0 i).
  - destruct (Z.ltb_spec i (Z.of_nat n)); [| lia].
    exists (Z.to_nat i); split; [reflexivity | lia].
  - destruct (Z.leb_spec (- Z.of_nat n) i); [| lia].
    exists (Z.to_nat (Z.of_nat n + i)); split; [reflexivity | lia].
Qed.

(** A lookup inside the shape of a well shaped 2-D array finds a cell. *)
Lemma getitem2_in_bounds {A : Type} (a : ndarray A) (n m : nat) (i j : Z) :
  well_shaped a -> shape a = [n; m] ->
  (- Z.of_nat n <= i < Z.of_nat n)%Z -> (- Z.of_nat m <= j < Z.of_nat m)%Z ->
  exists v, getitem2 a i j = Some v.
Proof.
  intros Hw Hs Hi Hj.
  destruct a as [xs | n' m' rows]; simpl in Hs; [discriminate |].
  injection Hs as -> ->.
  destruct Hw as [Hlen Hrows].
  destruct (axis_index_valid n i Hi) as (r & Hr & Hrn).
  destruct (axis_index_valid m j Hj) as (k & Hk & Hkm).
  unfold getitem2; rewrite Hr, Hk.
  destruct (nth_error rows r) as [row |] eqn:Hrow.
  - rewrite Forall_forall in Hrows.
    pose proof (Hrows row (nth_error_In _ _ Hrow)) as Hm.
    destruct (nth_error row k) as [v |] eqn:Hv.
    + exists v; reflexivity.
    + apply nth_error_None in Hv; lia.
  - apply nth_error_None in Hrow; lia.
Qed.

Lemma py_int_IZR (z : Z) : py_int (IZR z) = z.
Proof.
  unfold py_int.
  destruct (Rle_dec 0 (IZR z)).
  - apply ZfloorZ.
  - unfold Zceil; rewrite <- opp_IZR, ZfloorZ; lia.
Qed.

(** C7.  With the truncated coordinates of the target and of the current
    position indices of the map (an index of an axis of length n is an
    integer of [-n, n), as numpy has it), [_move_to] raises nothing and
    moves the camera to the target when its cell is 0, otherwise to
    (target x, old y) when that cell is 0, otherwise to (old x, target y)
    when that cell is 0, and otherwise leaves it where it is; the plane is
    not touched, and a camera that was in an empty cell is in an empty cell
    afterwards. *)
Theorem move_to_slides_along_walls
    (cam : Camera) (gmap : ndarray N) (n m : nat) (x y : R) :
  well_shaped gmap -> shape gmap = [n; m] ->
  (- Z.of_nat n <= py_int x < Z.of_nat n)%Z ->
  (- Z.of_nat m <= py_int y < Z.of_nat m)%Z ->
  (- Z.of_nat n <= py_int (fst (pos cam)) < Z.of_nat n)%Z ->
  (- Z.of_nat m <= py_int (snd (pos cam)) < Z.of_nat m)%Z ->
  exists (c1 c2 c3 : N) (cam' : Camera),
    cell_at gmap (x, y) = Some c1
    /\ cell_at gmap (x, snd (pos cam)) = Some c2
    /\ cell_at gmap (fst (pos cam), y) = Some c3
    /\ _move_to cam gmap (x, y) = Some cam'
    /\ _plane cam' = _plane cam
    /\ pos cam' =
         (if (c1 =? 0)%N then (x, y)
          else if (c2 =? 0)%N then (x, snd (pos cam))
          else if (c3 =? 0)%N then (fst (pos cam), y)
          else pos cam)
    /\ (cell_at gmap (pos cam) = Some 0%N ->
        cell_at gmap (pos cam') = Some 0%N).
Proof.
  intros Hw Hs Hx Hy Hox Hoy.
  destruct cam as [[old_x old_y] pl]; simpl in *.
  destruct (getitem2_in_bounds gmap n m _ _ Hw Hs Hx Hy) as [c1 H1].
  destruct (getitem2_in_bounds gmap n m _ _ Hw Hs Hx Hoy) as [c2 H2].
  destruct (getitem2_in_bounds gmap n m _ _ Hw Hs Hox Hy) as [c3 H3].
  exists c1, c2, c3.
  unfold _move_to, cell_at; simpl.
  rewrite H1.
  destruct (N.eqb_spec c1 0) as [-> | Hc1].
  { eexists; repeat split; try eassumption; intros _; exact H1. }
  rewrite H2.
  destruct (N.eqb_spec c2 0) as [-> | Hc2].
  { eexists; repeat split; try eassumption; intros _; exact H2. }
  rewrite H3.
  destruct (N.eqb_spec c3 0) as [-> | Hc3].
  { eexists; repeat split; try eassumption; intros _; exact H3. }
  eexists; repeat split; try eassumption; intros H; exact H.
Qed.

Lemma small_room_well_shaped : well_shaped small_room.
Proof. simpl; split; [reflexivity | repeat constructor]. Qed.

Lemma move_to_slides_along_walls_witness :
  exists (c1 c2 c3 : N) (cam' : Camera),
    cell_at small_room (2, 1) = Some c1
    /\ cell_at small_room (2, snd (pos (mkCamera (1, 1) identity))) = Some c2
    /\ cell_at small_room (fst (pos (mkCamera (1, 1) identity)), 1) = Some c3
    /\ _move_to (mkCamera (1, 1) identity) small_room (2, 1) = Some cam'
    /\ _plane cam' = _plane (mkCamera (1, 1) identity)
    /\ pos cam' =
         (if (c1 =? 0)%N then (2, 1)
          else if (c2 =? 0)%N
               then (2, snd (pos (mkCamera (1, 1) identity)))
          else if (c3 =? 0)%N
               then (fst (pos (mkCamera (1, 1) identity)), 1)
          else pos (mkCamera (1, 1) identity))
    /\ (cell_at small_room (pos (mkCamera (1, 1) identity)) = Some 0%N ->
        cell_at small_room (pos cam') = Some 0%N).
Proof.
  apply (move_to_slides_along_walls
           (mkCamera (1, 1) identity) small_room 4 3 2 1).
  - exact small_room_well_shaped.
  - reflexivity.
  - rewrite py_int_IZR; lia.
  - rewrite py_int_IZR; lia.
  - simpl; rewrite py_int_IZR; lia.
  - simpl; rewrite py_int_IZR; lia.
Defined.

Lemma py_int_between (z : Z) (x : R) :
  (0 <= z)%Z -> IZR z <= x < IZR z + 1 -> py_int x = z.
Proof.
  intros Hz Hx; unfold py_int.
  assert (0 <= IZR z) by (apply IZR_le; exact Hz).
  destruct (Rle_dec 0 x); [| lra].
  apply Zfloor_eq; exact Hx.
Qed.

(** From (1.5, 1.5) towards (2.2, 0.7): the target cell (2, 0) is a wall,
    the cell (2, 1) is empty, so the camera slides along x only. *)
Example move_to_slides_in_x :
  _move_to (mkCamera (3 / 2, 3 / 2) identity) small_room (22 / 10, 7 / 10)
  = Some (mkCamera (22 / 10, 3 / 2) identity).
Proof.
  unfold _move_to; simpl.
  rewrite (py_int_between 2 (22 / 10)) by (simpl; lra || lia).
  rewrite (py_int_between 0 (7 / 10)) by (simpl; lra || lia).
  rewrite (py_int_between 1 (3 / 2)) by (simpl; lra || lia).
  reflexivity.
Qed.

(** From (1.5, 1.5) towards (0.5, 0.5): the three cells tried are walls, the
    camera stays. *)
Example move_to_blocked :
  _move_to (mkCamera (3 / 2, 3 / 2) identity) small_room (1 / 2, 1 / 2)
  = Some (mkCamera (3 / 2, 3 / 2) identity).
Proof.
  unfold _move_to; simpl.
  rewrite (py_int_between 0 (1 / 2)) by (simpl; lra || lia).
  rewrite (py_int_between 1 (3 / 2)) by (simpl; lra || lia).
  reflexivity.
Qed.

(** ** Reading the map *)

Example splitlines_two_line_map :
  splitlines two_line_map = [["1"; "0"; "1"]; ["1"; "1"; "0"]]%char.
Proof. reflexivity. Qed.

Example read_map_two_line_map :
  read_map two_line_map = Some (Array2 3 2 [[1; 1]; [0; 1]; [1; 0]]%N).
Proof. reflexivity. Qed.

Lemma traverse_digits (line : str) :
  forallb is_digit line = true ->
  traverse int_of_char line = Some (map digit_value line).
Proof.
  induction line as [| c line IH]; simpl; [reflexivity |].
  intros H; apply andb_true_iff in H as [Hc Hl].
  unfold int_of_char at 1; rewrite Hc, (IH Hl); reflexivity.
Qed.

Lemma traverse_lines (lines : list str) :
  Forall (fun line => forallb is_digit line = true) lines ->
  traverse (traverse int_of_char) lines
  = Some (map (map digit_value) lines).
Proof.
  induction 1 as [| line lines Hline _ IH]; simpl; [reflexivity |].
  rewrite (traverse_digits line Hline), IH; reflexivity.
Qed.

(** Rows of one length make a 2-D array. *)
Lemma np_array_rectangular {A : Type} (rows : list (list A)) (m : nat) :
  rows <> [] -> Forall (fun r => length r = m) rows ->
  np_array rows = Some (Array2 (length rows) m rows).
Proof.
  intros Hne Hall.
  destruct rows as [| r rows']; [contradiction |].
  unfold np_array.
  assert (Hr : length r = m) by (inversion Hall; assumption).
  replace (forallb (fun r' => Nat.eqb (length r') (length r)) (r :: rows'))
    with true.
  - rewrite Hr; reflexivity.
  - symmetry; apply forallb_forall; intros r' Hin.
    rewrite Forall_forall in Hall.
    rewrite (Hall r' Hin), Hr; apply Nat.eqb_refl.
Qed.

(** Entry [y] of column [x] is entry [x] of row [y], when every row has a
    column [x]. *)
Lemma nth_error_column {A : Type} (rows : list (list A)) (x y : nat) :
  Forall (fun r => (x < length r)%nat) rows ->
  nth_error (column rows x) y
  = match nth_error rows y with
    | Some row => nth_error row x
    | None => None
    end.
Proof.
  intros Hall; revert y.
  induction Hall as [| r rows Hr _ IH]; intros y.
  - destruct y; reflexivity.
  - unfold column in *; simpl.
    destruct (nth_error r x) as [v |] eqn:Hv.
    + destruct y as [| y]; simpl; [symmetry; exact Hv | apply IH].
    + apply nth_error_None in Hv; lia.
Qed.

Lemma length_column {A : Type} (rows : list (list A)) (x : nat) :
  Forall (fun r => (x < length r)%nat) rows ->
  length (column rows x) = length rows.
Proof.
  induction 1 as [| r rows Hr _ IH]; [reflexivity |].
  unfold column in *; simpl.
  destruct (nth_error r x) as [v |] eqn:Hv.
  - simpl; f_equal; exact IH.
  - apply nth_error_None in Hv; lia.
Qed.

(** The transpose of a well shaped array of shape (n, m) is well shaped. *)
Lemma transpose_well_shaped {A : Type} (n m : nat) (rows : list (list A)) :
  well_shaped (Array2 n m rows) -> well_shaped (transpose (Array2 n m rows)).
Proof.
  intros [Hn Hm]; simpl; split.
  - rewrite length_map, length_seq; reflexivity.
  - apply Forall_forall; intros col Hin.
    apply in_map_iff in Hin as (x & <- & Hx).
    apply in_seq in Hx.
    rewrite length_column; [exact Hn |].
    eapply Forall_impl; [| exact Hm].
    simpl; intros r Hr; lia.
Qed.

(** [a.T[x, y]] is [a[y, x]]. *)
Lemma getitem2_transpose {A : Type} (n m : nat) (rows : list (list A))
    (x y : nat) :
  well_shaped (Array2 n m rows) -> (x < m)%nat -> (y < n)%nat ->
  getitem2 (transpose (Array2 n m rows)) (Z.of_nat x) (Z.of_nat y)
  = match nth_error rows y with
    | Some row => nth_error row x
    | None => None
    end.
Proof.
  intros [Hn Hm] Hx Hy; simpl.
  rewrite !axis_index_in_bounds, !Nat2Z.id by lia.
  rewrite nth_error_map, nth_error_seq.
  destruct (Nat.ltb_spec x m) as [_ | Hge]; [| lia].
  simpl; apply nth_error_column.
  eapply Forall_impl; [| exact Hm].
  simpl; intros r Hr; lia.
Qed.

(** A file without a line gives the empty array of dimension 1. *)
Example read_map_empty_file : read_map [] = Some (Array1 []).
Proof. reflexivity. Qed.

(** C10.  For a text whose lines are made of decimal digits and all have
    the length [L] (so the text has a line, of that length), [read_map]
    returns a well shaped array of dimension 2 and shape (L, number of
    lines) whose entry (x, y) is the value of the digit at column x of
    line y. *)
Theorem read_map_is_transposed_text (text : str) (L : nat) :
  splitlines text <> [] ->
  Forall (fun line => length line = L /\ forallb is_digit line = true)
         (splitlines text) ->
  exists a,
    read_map text = Some a
    /\ well_shaped a
    /\ ndim a = 2%nat
    /\ shape a = [L; length (splitlines text)]
    /\ forall x y : nat,
         (x < L)%nat -> (y < length (splitlines text))%nat ->
         exists (line : str) (c : ascii),
           nth_error (splitlines text) y = Some line
           /\ nth_error line x = Some c
           /\ getitem2 a (Z.of_nat x) (Z.of_nat y) = Some (digit_value c).
Proof.
  intros Hne Hall.
  set (lines := splitlines text) in *.
  set (rows := map (map digit_value) lines).
  assert (Hdigits : Forall (fun line => forallb is_digit line = true) lines).
  { eapply Forall_impl; [| exact Hall]; simpl; intros l [_ H]; exact H. }
  assert (Hrows : Forall (fun r => length r = L) rows).
  { apply Forall_forall; intros r Hin.
    apply in_map_iff in Hin as (line & <- & Hin).
    rewrite length_map.
    rewrite Forall_forall in Hall; apply (Hall line Hin). }
  assert (Hrne : rows <> []).
  { unfold rows; destruct lines; [contradiction | discriminate]. }
  assert (Hlen : length rows = length lines) by apply length_map.
  assert (Hw : well_shaped (Array2 (length rows) L rows))
    by (split; [reflexivity | exact Hrows]).
  exists (transpose (Array2 (length rows) L rows)).
  split.
  { unfold read_map; fold lines.
    rewrite (traverse_lines lines Hdigits); fold rows.
    rewrite (np_array_rectangular rows L Hrne Hrows); reflexivity. }
  split; [apply transpose_well_shaped; exact Hw |].
  split; [reflexivity |].
  split; [simpl; rewrite Hlen; reflexivity |].
  intros x y Hx Hy.
  destruct (nth_error lines y) as [line |] eqn:Hline;
    [| apply nth_error_None in Hline; lia].
  assert (HL : length line = L).
  { rewrite Forall_forall in Hall.
    apply (Hall line (nth_error_In _ _ Hline)). }
  destruct (nth_error line x) as [c |] eqn:Hc;
    [| apply nth_error_None in Hc; lia].
  exists line, c.
  split; [reflexivity |].
  split; [exact Hc |].
  rewrite getitem2_transpose by (assumption || lia).
  unfold rows, str in *.
  rewrite nth_error_map, Hline; simpl.
  rewrite nth_error_map, Hc; reflexivity.
Qed.

Lemma read_map_is_transposed_text_witness :
  exists a,
    read_map two_line_map = Some a
    /\ well_shaped a
    /\ ndim a = 2%nat
    /\ shape a = [3%nat; length (splitlines two_line_map)]
    /\ forall x y : nat,
         (x < 3)%nat -> (y < length (splitlines two_line_map))%nat ->
         exists (line : str) (c : ascii),
           nth_error (splitlines two_line_map) y = Some line
           /\ nth_error line x = Some c
           /\ getitem2 a (Z.of_nat x) (Z.of_nat y) = Some (digit_value c).
Proof.
  apply (read_map_is_transposed_text two_line_map 3).
  - vm_compute; discriminate.
  - vm_compute; repeat constructor.
Defined.

(** ** Texture indices at load time *)

(** [iter_from_json] checks nothing: every record becomes a sprite with the
    texture index it names. *)
Lemma iter_from_json_texture_indices (data : list sprite_data) :
  map texture_index (iter_from_json data) = map data_texture_index data.
Proof.
  unfold iter_from_json; rewrite map_map; reflexivity.
Qed.

Lemma sprite_texture_loaded_iff (n : nat) (s : Sprite) :
  sprite_texture_loaded n s = true
  <-> (0 <= texture_index s < Z.of_nat n)%Z.
Proof.
  unfold sprite_texture_loaded.
  rewrite andb_true_iff, Z.leb_le, Z.ltb_lt; reflexivity.
Qed.

Lemma wall_texture_loaded_iff (n : nat) (v : N) :
  wall_texture_loaded n v = true
  <-> (v = 0%N \/ (N.to_nat v - 1 < n)%nat).
Proof.
  unfold wall_texture_loaded; rewrite Nat.leb_le; lia.
Qed.

(** With every index matched, the engine is built, over the assets given. *)
Lemma Engine_init_matched
    (cam : Camera) (gmap : ndarray N) (data : list sprite_data)
    (walls : list (ndarray N)) (stex : list (ndarray ascii)) (rs ts : R) :
  Forall (fun d => (0 <= data_texture_index d < Z.of_nat (length stex))%Z)
         data ->
  Forall (fun v => v = 0%N \/ (N.to_nat v - 1 < length walls)%nat)
         (cells gmap) ->
  Engine_init cam gmap (iter_from_json data) walls stex rs ts
  = inr (mkEngine cam gmap (iter_from_json data) walls stex rs ts
           (mkRaycaster gmap (iter_from_json data) walls stex)).
Proof.
  intros Hs Hc; unfold Engine_init, Raycaster_init.
  replace (forallb (sprite_texture_loaded (length stex))
             (iter_from_json data)) with true.
  - replace (forallb (wall_texture_loaded (length walls)) (cells gmap))
      with true; [reflexivity |].
    symmetry; apply forallb_forall; intros v Hv.
    apply wall_texture_loaded_iff.
    rewrite Forall_forall in Hc; exact (Hc v Hv).
  - symmetry; apply forallb_forall; intros s Hin.
    apply in_map_iff in Hin as (d & <- & Hd).
    apply sprite_texture_loaded_iff; simpl.
    rewrite Forall_forall in Hs; exact (Hs d Hd).
Qed.

(** C8.  When a sprite record names a texture index that is not the index
    of a loaded sprite texture, or a map cell is a wall whose texture index
    (the cell value less one) is not the index of a loaded wall texture,
    building the engine raises the precondition violation: there is no
    engine, and so no caster to call [cast] on. *)
Theorem unmatched_texture_index_fails_at_load
    (cam : Camera) (gmap : ndarray N) (data : list sprite_data)
    (walls : list (ndarray N)) (stex : list (ndarray ascii)) (rs ts : R) :
  Exists (fun d => ~ (0 <= data_texture_index d < Z.of_nat (length stex))%Z)
         data
  \/ Exists (fun v => v <> 0%N /\ (length walls <= N.to_nat v - 1)%nat)
            (cells gmap) ->
  Engine_init cam gmap (iter_from_json data) walls stex rs ts
  = inl PreconditionViolation.
Proof.
  intros H; unfold Engine_init, Raycaster_init.
  destruct (forallb (sprite_texture_loaded (length stex))
              (iter_from_json data)) eqn:Hs; [| reflexivity].
  destruct (forallb (wall_texture_loaded (length walls)) (cells gmap))
    eqn:Hc; [exfalso | reflexivity].
  rewrite forallb_forall in Hs, Hc.
  destruct H as [H | H]; apply Exists_exists in H.
  - destruct H as (d & Hd & Hbad); apply Hbad.
    apply (sprite_texture_loaded_iff (length stex)
             (mkSprite (data_pos d) (data_texture_index d))).
    apply Hs, in_map_iff; exists d; split; [reflexivity | exact Hd].
  - destruct H as (v & Hv & Hne & Hbad).
    apply Hc, wall_texture_loaded_iff in Hv; lia.
Qed.

Lemma unmatched_texture_index_fails_at_load_witness :
  Engine_init (Camera_init default_pos default_theta default_fov) small_room
    (iter_from_json [mkSpriteData (1, 1) 3]) [] []
    default_rotation_speed default_translation_speed
  = inl PreconditionViolation.
Proof.
  apply (unmatched_texture_index_fails_at_load
           (Camera_init default_pos default_theta default_fov) small_room
           [mkSpriteData (1, 1) 3] [] []
           default_rotation_speed default_translation_speed).
  left; constructor; simpl; lia.
Defined.

(** * Further properties *)

(** ** More on the camera *)

Lemma rotation_matrix_plus (a b : R) :
  rotation_matrix a @ rotation_matrix b = rotation_matrix (a + b).
Proof.
  unfold rotation_matrix, matmul; simpl.
  rewrite cos_plus, sin_plus; f_equal; ring.
Qed.

Lemma rotate_plus (c : Camera) (a b : R) :
  rotate (rotate c a) b = rotate c (a + b).
Proof.
  unfold rotate; simpl.
  rewrite matmul_assoc, rotation_matrix_plus; reflexivity.
Qed.

Lemma rotate_zero (c : Camera) : rotate c 0 = c.
Proof.
  destruct c as [p pl]; unfold rotate; simpl.
  unfold rotation_matrix; rewrite cos_0, sin_0, Ropp_0.
  fold identity; rewrite matmul_identity_r; reflexivity.
Qed.

(** The camera after the rotations of a list, one after the other. *)
Lemma rotate_all_sum (angles : list R) (c : Camera) :
  fold_left rotate angles c = rotate c (fold_right Rplus 0 angles).
Proof.
  revert c; induction angles as [| a angles IH]; intros c; simpl.
  - symmetry; apply rotate_zero.
  - rewrite IH, rotate_plus; reflexivity.
Qed.

Lemma rotate_build_plane (c : Camera) (t f s : R) :
  rotate (_build_plane c t f) s = _build_plane c (t + s) f.
Proof.
  unfold rotate, _build_plane; simpl.
  rewrite matmul_assoc, rotation_matrix_plus; reflexivity.
Qed.

Lemma fov_rotate (c : Camera) (t : R) : fov (rotate c t) = fov c.
Proof.
  unfold fov, rotate, row1, matmul, rotation_matrix; simpl.
  apply norm_rotation.
Qed.

Lemma det_matmul (a b : mat2) : det (a @ b) = det a * det b.
Proof. destruct a, b; unfold det, matmul; simpl; ring. Qed.

Lemma det_rotation_matrix (t : R) : det (rotation_matrix t) = 1.
Proof.
  unfold det, rotation_matrix; simpl.
  pose proof (sin_cos_sq t); lra.
Qed.

(** X1.  Two rotations in a row are one rotation by the sum of the angles, so
    the order of two rotations does not matter, and a rotation by 0 changes
    nothing. *)
Theorem rotate_twice_adds_angles (c : Camera) (a b : R) :
  rotate (rotate c a) b = rotate c (a + b)
  /\ rotate (rotate c a) b = rotate (rotate c b) a
  /\ rotate c 0 = c.
Proof.
  split; [apply rotate_plus |].
  split; [| apply rotate_zero].
  rewrite !rotate_plus, Rplus_comm; reflexivity.
Qed.

(** X2.  Turning a camera built with angle [t] by [s] gives the camera built
    with angle [t + s]: for the constructor and for the [theta] setter. *)
Theorem rotate_built_camera (c : Camera) (p : R * R) (t f s : R) :
  rotate (Camera_init p t f) s = Camera_init p (t + s) f
  /\ rotate (set_theta c t) s = set_theta c (t + s).
Proof.
  split.
  - unfold Camera_init; apply rotate_build_plane.
  - unfold set_theta; apply rotate_build_plane.
Qed.

(** X3.  However a camera is built and then turned, its direction row keeps the
    length of (1.001, 0.001): a step forward is as long in every
    direction. *)
Theorem direction_row_length (p : R * R) (t f : R) (angles : list R) :
  norm (row0 (_plane (fold_left rotate angles (Camera_init p t f))))
  = sqrt (1002002 / 1000000).
Proof.
  rewrite rotate_all_sum.
  unfold Camera_init; rewrite rotate_build_plane, build_plane_entries.
  set (s := t + fold_right Rplus 0 angles).
  unfold spec_plane, norm, row0; simpl; f_equal.
  pose proof (sin_cos_sq s) as H.
  replace ((1001 / 1000 * cos s - 1 / 1000 * sin s)
           * (1001 / 1000 * cos s - 1 / 1000 * sin s)
           + (1001 / 1000 * sin s + 1 / 1000 * cos s)
             * (1001 / 1000 * sin s + 1 / 1000 * cos s))
    with (1002002 / 1000000 * (sin s * sin s + cos s * cos s)) by field.
  rewrite H; ring.
Qed.

(** X4.  However a camera is built and then turned, its field of view is the
    clamped one it was built with, between 0 and 1. *)
Theorem fov_of_turned_camera (p : R * R) (t f : R) (angles : list R) :
  fov (fold_left rotate angles (Camera_init p t f)) = Rmax 0 (Rmin 1 f)
  /\ 0 <= fov (fold_left rotate angles (Camera_init p t f)) <= 1.
Proof.
  rewrite rotate_all_sum, fov_rotate, fov_Camera_init.
  split; [apply clamp_fov_interval | apply clamp_fov_bounds].
Qed.

(** X5.  However a camera is built and then turned, the determinant of its plane
    is 1.001 times the clamped field of view: the plane has an inverse
    unless the field of view given was 0 or less. *)
Theorem plane_determinant (p : R * R) (t f : R) (angles : list R) :
  det (_plane (fold_left rotate angles (Camera_init p t f)))
  = 1001 / 1000 * Rmax 0 (Rmin 1 f)
  /\ (det (_plane (fold_left rotate angles (Camera_init p t f))) = 0
      <-> f <= 0).
Proof.
  assert (Hdet : det (_plane (fold_left rotate angles (Camera_init p t f)))
                 = 1001 / 1000 * clamp_fov f).
  { rewrite rotate_all_sum; unfold rotate, Camera_init, _build_plane; simpl.
    rewrite !det_matmul, !det_rotation_matrix.
    unfold det, initial_plane; simpl; ring. }
  rewrite Hdet, <- clamp_fov_interval.
  split; [reflexivity |].
  unfold clamp_fov.
  destruct (Rlt_dec 1 f); [lra |].
  destruct (Rlt_dec f 0); lra.
Qed.

(** X6.  Setting [theta] overrides what was set or turned before: only the last
    angle counts. *)
Theorem set_theta_overrides (c : Camera) (a b : R) :
  set_theta (set_theta c a) b = set_theta c b
  /\ set_theta (rotate c a) b = set_theta c b.
Proof.
  split.
  - change (set_theta (set_theta c a) b)
      with (_build_plane (set_theta c a) b (fov (set_theta c a))).
    rewrite fov_set_theta; reflexivity.
  - change (set_theta (rotate c a) b)
      with (_build_plane (rotate c a) b (fov (rotate c a))).
    rewrite fov_rotate; reflexivity.
Qed.

(** X7.  The [fov] setter stores the absolute value of what it is given, for
    every camera and every value, and no setter moves the camera. *)
Theorem fov_setter_stores_absolute_value (c : Camera) (t f : R) :
  fov (set_fov c f) = Rabs f
  /\ pos (set_fov c f) = pos c
  /\ pos (set_theta c t) = pos c.
Proof.
  split; [apply fov_set_fov | split; reflexivity].
Qed.

Lemma norm_factor (x y : R) :
  x <> 0 -> norm (x, y) = Rabs x * sqrt (1 + (y / x)²).
Proof.
  intros Hx; unfold norm; simpl.
  rewrite <- sqrt_Rsqr_abs, <- sqrt_mult.
  - f_equal; unfold Rsqr; field; exact Hx.
  - apply Rle_0_sqr.
  - pose proof (Rle_0_sqr (y / x)); lra.
Qed.

Lemma norm_atan (x y : R) :
  x <> 0 ->
  norm (x, y) * cos (atan (y / x)) = Rabs x
  /\ norm (x, y) * sin (atan (y / x)) = Rabs x * (y / x).
Proof.
  intros Hx.
  rewrite (norm_factor x y Hx), cos_atan, sin_atan.
  assert (HS : 0 < sqrt (1 + (y / x)²)).
  { apply sqrt_lt_R0; pose proof (Rle_0_sqr (y / x)); lra. }
  split; field; lra.
Qed.

(** A vector other than zero is its length times the unit vector at its
    angle. *)
Lemma polar_decomposition (x y : R) :
  (x, y) <> (0, 0) ->
  x = norm (x, y) * cos (arctan2 y x)
  /\ y = norm (x, y) * sin (arctan2 y x).
Proof.
  intros Hne; unfold arctan2.
  destruct (Rlt_dec 0 x) as [Hx | Hx].
  - destruct (norm_atan x y) as [Hc Hs]; [lra |].
    rewrite Hc, Hs, Rabs_right by lra.
    split; [reflexivity | field; lra].
  - destruct (Rlt_dec x 0) as [Hx' | Hx'].
    + destruct (norm_atan x y) as [Hc Hs]; [lra |].
      rewrite Rabs_left in Hc, Hs by lra.
      destruct (Rle_dec 0 y).
      * rewrite neg_cos, neg_sin.
        split.
        -- rewrite Ropp_mult_distr_r_reverse, Hc; ring.
        -- rewrite Ropp_mult_distr_r_reverse, Hs; field; lra.
      * replace (atan (y / x) - PI) with (- (- atan (y / x) + PI)) by ring.
        rewrite cos_neg, sin_neg, neg_cos, neg_sin, cos_neg, sin_neg.
        split.
        -- rewrite Ropp_mult_distr_r_reverse, Hc; ring.
        -- rewrite !Ropp_involutive.
           rewrite Ropp_mult_distr_r_reverse, Hs; field; lra.
    + assert (x = 0) by lra; subst x.
      assert (Hn : norm (0, y) = Rabs y).
      { unfold norm; simpl; rewrite Rmult_0_l, Rplus_0_l.
        apply sqrt_Rsqr_abs. }
      rewrite Hn.
      destruct (Rlt_dec 0 y) as [Hy | Hy].
      * rewrite cos_PI2, sin_PI2, Rabs_right by lra; split; ring.
      * destruct (Rlt_dec y 0) as [Hy' | Hy'].
        -- rewrite cos_neg, sin_neg, cos_PI2, sin_PI2, Rabs_left by lra.
           split; ring.
        -- exfalso; apply Hne; f_equal; lra.
Qed.

Lemma norm_pos (x y : R) : (x, y) <> (0, 0) -> 0 < norm (x, y).
Proof.
  intros Hne; unfold norm; simpl; apply sqrt_lt_R0.
  destruct (Req_dec x 0) as [-> | Hx].
  - assert (y <> 0) by (intros ->; apply Hne; reflexivity).
    nra.
  - nra.
Qed.

(** X8.  Turning a camera by [t] adds [t] to the value of its [theta] accessor,
    as long as the direction row is not zero and the sum is in the range
    of [arctan2]. *)
Theorem theta_after_rotate (c : Camera) (t : R) :
  row0 (_plane c) <> (0, 0) ->
  - PI < theta c + t <= PI ->
  theta (rotate c t) = theta c + t.
Proof.
  destruct c as [p [x y z w]]; unfold theta, rotate, row0; simpl.
  intros Hne Hrange.
  destruct (polar_decomposition x y Hne) as [Hx Hy].
  pose proof (norm_pos x y Hne) as Hr.
  remember (norm (x, y)) as r eqn:Er.
  remember (arctan2 y x) as a eqn:Ea.
  clear Er Ea Hne.
  subst x y.
  replace (r * cos a * cos t + r * sin a * - sin t) with (r * cos (a + t))
    by (rewrite cos_plus; ring).
  replace (r * cos a * sin t + r * sin a * cos t) with (r * sin (a + t))
    by (rewrite sin_plus; ring).
  apply arctan2_polar; assumption.
Qed.

Lemma theta_identity (p : R * R) : theta (mkCamera p identity) = 0.
Proof.
  unfold theta, row0, identity, arctan2; simpl.
  destruct (Rlt_dec 0 1); [| lra].
  unfold Rdiv; rewrite Rmult_0_l; apply atan_0.
Qed.

Lemma theta_after_rotate_witness :
  theta (rotate (mkCamera (0, 0) identity) 1)
  = theta (mkCamera (0, 0) identity) + 1.
Proof.
  apply (theta_after_rotate (mkCamera (0, 0) identity) 1).
  - simpl; intros H; injection H as H; lra.
  - rewrite theta_identity.
    pose proof PI2_3_2; lra.
Defined.

(** X9.  The [theta] accessor of a camera built with angle [t] returns [t] plus
    the angle [atan (1 / 1001)] of the direction (1.001, 0.001), when that
    sum is in the range of [arctan2]; so does the accessor after the
    [theta] setter. *)
Theorem theta_of_built_camera (c : Camera) (p : R * R) (t f : R) :
  - PI < t + direction_offset <= PI ->
  theta (Camera_init p t f) = t + atan (1 / 1001)
  /\ theta (set_theta c t) = t + atan (1 / 1001).
Proof.
  intros H; fold direction_offset; split.
  - unfold Camera_init; apply theta_build_plane; exact H.
  - unfold set_theta; apply theta_build_plane; exact H.
Qed.

Lemma theta_of_built_camera_witness :
  theta (Camera_init default_pos 0 default_fov) = 0 + atan (1 / 1001)
  /\ theta (set_theta (mkCamera (0, 0) identity) 0) = 0 + atan (1 / 1001).
Proof.
  apply (theta_of_built_camera (mkCamera (0, 0) identity) default_pos 0
           default_fov).
  pose proof direction_offset_bounds; pose proof PI_RGT_0; lra.
Defined.

(** ** More on movement *)

Lemma axis_index_out_of_range (n : nat) (i : Z) :
  (i < - Z.of_nat n \/ Z.of_nat n <= i)%Z -> axis_index n i = None.
Proof.
  intros H; unfold axis_index.
  destruct (Z.leb_spec 0 i).
  - destruct (Z.ltb_spec i (Z.of_nat n)); [lia | reflexivity].
  - destruct (Z.leb_spec (- Z.of_nat n) i); [lia | reflexivity].
Qed.

Lemma getitem2_out_of_range {A : Type} (a : ndarray A) (n m : nat) (i j : Z) :
  shape a = [n; m] ->
  (i < - Z.of_nat n \/ Z.of_nat n <= i
   \/ j < - Z.of_nat m \/ Z.of_nat m <= j)%Z ->
  getitem2 a i j = None.
Proof.
  intros Hs H.
  destruct a as [xs | n' m' rows]; simpl in Hs; [discriminate |].
  injection Hs as -> ->; unfold getitem2.
  destruct H as [H | [H | H]].
  - rewrite axis_index_out_of_range by lia; reflexivity.
  - rewrite axis_index_out_of_range by lia; reflexivity.
  - rewrite (axis_index_out_of_range m j) by lia.
    destruct (axis_index n i); reflexivity.
Qed.

(** X11.  A target whose truncated coordinates are not indices of the map makes
    [_move_to] raise [IndexError], wherever the camera is. *)
Theorem move_to_outside_raises
    (cam : Camera) (gmap : ndarray N) (n m : nat) (x y : R) :
  shape gmap = [n; m] ->
  (py_int x < - Z.of_nat n \/ Z.of_nat n <= py_int x
   \/ py_int y < - Z.of_nat m \/ Z.of_nat m <= py_int y)%Z ->
  _move_to cam gmap (x, y) = None.
Proof.
  intros Hs H; unfold _move_to.
  destruct (pos cam) as [old_x old_y].
  rewrite (getitem2_out_of_range gmap n m _ _ Hs H); reflexivity.
Qed.

Lemma move_to_outside_raises_witness :
  _move_to (mkCamera (1, 1) identity) small_room (4, 1) = None.
Proof.
  apply (move_to_outside_raises (mkCamera (1, 1) identity) small_room 4 3 4 1).
  - reflexivity.
  - right; left; rewrite py_int_IZR; lia.
Defined.

Lemma set_pos_same (cam : Camera) : set_pos cam (pos cam) = cam.
Proof. destruct cam; reflexivity. Qed.

(** What a [_move_to] that returns has done. *)
Lemma move_to_cases (cam cam' : Camera) (gmap : ndarray N) (x y : R) :
  _move_to cam gmap (x, y) = Some cam' ->
  (cam' = set_pos cam (x, y) /\ cell_at gmap (x, y) = Some 0%N)
  \/ (cam' = set_pos cam (x, snd (pos cam))
      /\ cell_at gmap (x, snd (pos cam)) = Some 0%N)
  \/ (cam' = set_pos cam (fst (pos cam), y)
      /\ cell_at gmap (fst (pos cam), y) = Some 0%N)
  \/ cam' = cam.
Proof.
  unfold _move_to, cell_at.
  destruct (pos cam) as [old_x old_y] eqn:Hpos; simpl.
  destruct (getitem2 gmap (py_int x) (py_int y)) as [c1 |]; [| discriminate].
  destruct (N.eqb_spec c1 0) as [-> | _].
  { intros H; injection H as <-; left; split; reflexivity. }
  destruct (getitem2 gmap (py_int x) (py_int old_y)) as [c2 |];
    [| discriminate].
  destruct (N.eqb_spec c2 0) as [-> | _].
  { intros H; injection H as <-; right; left; split; reflexivity. }
  destruct (getitem2 gmap (py_int old_x) (py_int y)) as [c3 |];
    [| discriminate].
  destruct (N.eqb_spec c3 0) as [-> | _].
  { intros H; injection H as <-; right; right; left; split; reflexivity. }
  intros H; injection H as <-; right; right; right; reflexivity.
Qed.

(** X12.  Whenever [_move_to] returns, with no assumption on the indices: the
    plane is as it was; each coordinate of the position is the old one or
    the target's; a camera that moved is in an empty cell, and so is one
    that was in an empty cell before. *)
Theorem move_to_returns_in_empty_cell
    (cam cam' : Camera) (gmap : ndarray N) (x y : R) :
  _move_to cam gmap (x, y) = Some cam' ->
  _plane cam' = _plane cam
  /\ (fst (pos cam') = x \/ fst (pos cam') = fst (pos cam))
  /\ (snd (pos cam') = y \/ snd (pos cam') = snd (pos cam))
  /\ (cam' = cam \/ cell_at gmap (pos cam') = Some 0%N)
  /\ (cell_at gmap (pos cam) = Some 0%N ->
      cell_at gmap (pos cam') = Some 0%N).
Proof.
  intros H.
  destruct (move_to_cases cam cam' gmap x y H)
    as [[-> Hc] | [[-> Hc] | [[-> Hc] | ->]]]; simpl;
    repeat split; auto.
Qed.

Lemma move_to_returns_in_empty_cell_witness :
  _plane (mkCamera (2, 1) identity) = _plane (mkCamera (1, 1) identity)
  /\ (fst (pos (mkCamera (2, 1) identity)) = 2
      \/ fst (pos (mkCamera (2, 1) identity))
         = fst (pos (mkCamera (1, 1) identity)))
  /\ (snd (pos (mkCamera (2, 1) identity)) = 1
      \/ snd (pos (mkCamera (2, 1) identity))
         = snd (pos (mkCamera (1, 1) identity)))
  /\ (mkCamera (2, 1) identity = mkCamera (1, 1) identity
      \/ cell_at small_room (pos (mkCamera (2, 1) identity)) = Some 0%N)
  /\ (cell_at small_room (pos (mkCamera (1, 1) identity)) = Some 0%N ->
      cell_at small_room (pos (mkCamera (2, 1) identity)) = Some 0%N).
Proof.
  apply (move_to_returns_in_empty_cell
           (mkCamera (1, 1) identity) (mkCamera (2, 1) identity)
           small_room 2 1).
  unfold _move_to; simpl.
  rewrite !py_int_IZR; reflexivity.
Defined.

Lemma py_int_near_zero (x : R) : -1 < x < 1 -> py_int x = 0%Z.
Proof.
  intros [Hl Hu]; unfold py_int.
  destruct (Rle_dec 0 x).
  - apply Zfloor_eq; simpl; lra.
  - apply Zceil_eq; simpl; lra.
Qed.

Lemma py_int_negative (z : Z) (x : R) :
  (z <= 0)%Z -> IZR z - 1 < x <= IZR z -> py_int x = z.
Proof.
  intros Hz Hx; unfold py_int.
  assert (IZR z <= 0) by (apply IZR_le; exact Hz).
  destruct (Rle_dec 0 x) as [H0 | H0].
  - assert (x = 0) by lra; subst x.
    assert (z = 0%Z).
    { apply eq_IZR; lra. }
    subst z; apply ZfloorZ.
  - apply Zceil_eq; exact Hx.
Qed.

(** X13.  [int] truncates towards zero, so a target up to one cell below zero in
    x is looked up in row 0 of the map: through an empty cell there the
    camera leaves the map. *)
Theorem move_to_below_zero
    (cam : Camera) (gmap : ndarray N) (x y : R) :
  -1 < x < 0 ->
  getitem2 gmap 0 (py_int y) = Some 0%N ->
  _move_to cam gmap (x, y) = Some (set_pos cam (x, y))
  /\ fst (pos (set_pos cam (x, y))) < 0.
Proof.
  intros Hx Hcell; split; [| simpl; lra].
  unfold _move_to.
  destruct (pos cam) as [old_x old_y].
  rewrite (py_int_near_zero x) by lra.
  rewrite Hcell; reflexivity.
Qed.

Lemma move_to_below_zero_witness :
  _move_to (mkCamera (1 / 2, 1) identity)
    (Array2 2 2 [[0; 0]; [0; 0]]%N) (- (1 / 2), 1)
  = Some (set_pos (mkCamera (1 / 2, 1) identity) (- (1 / 2), 1))
  /\ fst (pos (set_pos (mkCamera (1 / 2, 1) identity) (- (1 / 2), 1))) < 0.
Proof.
  apply (move_to_below_zero (mkCamera (1 / 2, 1) identity)
           (Array2 2 2 [[0; 0]; [0; 0]]%N) (- (1 / 2)) 1).
  - lra.
  - rewrite py_int_IZR; reflexivity.
Defined.

Lemma getitem2_last_row {A : Type} (a : ndarray A) (n m : nat) (j : Z) :
  shape a = [S n; m] ->
  getitem2 a (-1) j = getitem2 a (Z.of_nat n) j.
Proof.
  intros Hs.
  destruct a as [xs | n' m' rows]; simpl in Hs; [discriminate |].
  injection Hs as -> ->; unfold getitem2.
  assert (H1 : axis_index (S n) (-1) = Some n).
  { unfold axis_index.
    destruct (Z.leb_spec 0 (-1)); [lia |].
    destruct (Z.leb_spec (- Z.of_nat (S n)) (-1)); [| lia].
    f_equal; lia. }
  assert (H2 : axis_index (S n) (Z.of_nat n) = Some n).
  { rewrite axis_index_in_bounds by lia; f_equal; lia. }
  rewrite H1, H2; reflexivity.
Qed.

(** X14.  A target between one and two cells below zero in x has the truncated
    coordinate -1, which numpy reads from the end: the cell tested is in the
    last row of the map. *)
Theorem move_to_wraps_around
    (cam : Camera) (gmap : ndarray N) (n m : nat) (x y : R) :
  shape gmap = [S n; m] ->
  -2 < x <= -1 ->
  cell_at gmap (x, y) = getitem2 gmap (Z.of_nat n) (py_int y)
  /\ (getitem2 gmap (Z.of_nat n) (py_int y) = Some 0%N ->
      _move_to cam gmap (x, y) = Some (set_pos cam (x, y))).
Proof.
  intros Hs Hx.
  assert (Hi : py_int x = (-1)%Z).
  { apply py_int_negative; [lia | simpl; lra]. }
  assert (Hc : cell_at gmap (x, y) = getitem2 gmap (Z.of_nat n) (py_int y)).
  { unfold cell_at; simpl; rewrite Hi; apply (getitem2_last_row gmap n m _ Hs). }
  split; [exact Hc |].
  intros H0; unfold _move_to.
  destruct (pos cam) as [old_x old_y].
  unfold cell_at in Hc; simpl in Hc; rewrite Hc, H0; reflexivity.
Qed.

Lemma move_to_wraps_around_witness :
  cell_at (Array2 2 1 [[1]; [0]]%N) (-1, 0)
  = getitem2 (Array2 2 1 [[1]; [0]]%N) (Z.of_nat 1) (py_int 0)
  /\ (getitem2 (Array2 2 1 [[1]; [0]]%N) (Z.of_nat 1) (py_int 0) = Some 0%N ->
      _move_to (mkCamera (0, 0) identity) (Array2 2 1 [[1]; [0]]%N) (-1, 0)
      = Some (set_pos (mkCamera (0, 0) identity) (-1, 0))).
Proof.
  apply (move_to_wraps_around (mkCamera (0, 0) identity)
           (Array2 2 1 [[1]; [0]]%N) 1 1 (-1) 0).
  - reflexivity.
  - lra.
Defined.

(** ** Key handling *)

Lemma same_world_refl (e : Engine) : same_world e e.
Proof. unfold same_world; repeat split; auto. Qed.

Lemma same_world_trans (e1 e2 e3 : Engine) :
  same_world e1 e2 -> same_world e2 e3 -> same_world e1 e3.
Proof.
  unfold same_world.
  intros (A1 & A2 & A3 & A4 & A5 & A6 & A7 & A8 & A9)
         (B1 & B2 & B3 & B4 & B5 & B6 & B7 & B8 & B9).
  repeat split; try congruence.
  intros H; apply B9, A9, H.
Qed.

Lemma move_camera_same_world (e e' : Engine) (p : R * R) :
  move_camera e p = Some e' ->
  same_world e e' /\ caster e' = caster e
  /\ _plane (camera e') = _plane (camera e).
Proof.
  unfold move_camera.
  destruct (_move_to (camera e) (game_map e) p) as [cam |] eqn:Hm;
    [| discriminate].
  intros H; injection H as <-.
  destruct p as [x y].
  assert (Hpl : _plane cam = _plane (camera e)
                /\ (cell_at (game_map e) (pos (camera e)) = Some 0%N ->
                    cell_at (game_map e) (pos cam) = Some 0%N)).
  { destruct (move_to_cases _ _ _ _ _ Hm)
      as [[-> Hc] | [[-> Hc] | [[-> Hc] | ->]]]; simpl; auto. }
  destruct Hpl as [Hpl Hcell].
  unfold same_world, fov; simpl; rewrite Hpl.
  repeat split; auto.
Qed.

Section HandleKeysFacts.

Variable toggle_textures : Raycaster -> Raycaster.

Lemma handle_toggle_same_world (e e' : Engine) (pk pk' : key_state) :
  handle_toggle toggle_textures e pk = (e', pk') ->
  same_world e e' /\ camera e' = camera e.
Proof.
  unfold handle_toggle.
  destruct (pk (KEY_BINDINGS toggle_texture)); intros H; injection H as <- <-;
    split; try reflexivity; unfold same_world; simpl; repeat split; auto.
Qed.

Lemma handle_turn_same_world (e : Engine) (l r : bool) (dt : R) :
  same_world e (handle_turn e l r dt)
  /\ caster (handle_turn e l r dt) = caster e
  /\ pos (camera (handle_turn e l r dt)) = pos (camera e).
Proof.
  unfold handle_turn.
  destruct (l && negb r); [| destruct (r && negb l)];
    try (split; [apply same_world_refl | split; reflexivity]).
  - split; [| split; reflexivity].
    unfold same_world, fov; simpl; repeat split; auto; apply norm_rotation.
  - split; [| split; reflexivity].
    unfold same_world, fov; simpl; repeat split; auto; apply norm_rotation.
Qed.

Lemma handle_walk_same_world (e e' : Engine) (f b : bool) (dt : R) :
  handle_walk e f b dt = Some e' ->
  same_world e e' /\ caster e' = caster e.
Proof.
  unfold handle_walk.
  destruct (f && negb b); [| destruct (b && negb f)].
  - intros H; apply move_camera_same_world in H; tauto.
  - intros H; apply move_camera_same_world in H; tauto.
  - intros H; injection H as <-; split; [apply same_world_refl | reflexivity].
Qed.

Lemma handle_strafe_same_world (e e' : Engine) (l r : bool) (dt : R) :
  handle_strafe e l r dt = Some e' ->
  same_world e e' /\ caster e' = caster e.
Proof.
  unfold handle_strafe.
  destruct (l && negb r); [| destruct (r && negb l)].
  - intros H; apply move_camera_same_world in H; tauto.
  - intros H; apply move_camera_same_world in H; tauto.
  - intros H; injection H as <-; split; [apply same_world_refl | reflexivity].
Qed.

(** X15.  A call of [_handle_keys] that returns leaves the map, the sprites, the
    textures and the speeds as they were, keeps the field of view and the
    length of the direction row of the camera, and keeps a camera that was
    in an empty cell in an empty cell. *)
Theorem handle_keys_keeps_world
    (e e' : Engine) (pk pk' : key_state) (dt : R) :
  _handle_keys toggle_textures e pk dt = Some (e', pk') ->
  same_world e e'.
Proof.
  unfold _handle_keys.
  destruct (handle_toggle toggle_textures e pk) as [e1 pk1] eqn:Ht.
  apply handle_toggle_same_world in Ht as [W1 _].
  set (l := _is_pressed pk1 [turn_left_1; turn_left_2]).
  set (r := _is_pressed pk1 [turn_right_1; turn_right_2]).
  destruct (handle_turn_same_world e1 l r dt) as (W2 & _ & _).
  destruct (handle_walk (handle_turn e1 l r dt) _ _ dt) as [e3 |] eqn:Hw;
    [| discriminate].
  apply handle_walk_same_world in Hw as [W3 _].
  destruct (handle_strafe e3 _ _ dt) as [e4 |] eqn:Hs; [| discriminate].
  apply handle_strafe_same_world in Hs as [W4 _].
  intros H; injection H as <- <-.
  eapply same_world_trans; [| exact W4].
  eapply same_world_trans; [| exact W3].
  eapply same_world_trans; [exact W1 | exact W2].
Qed.

End HandleKeysFacts.

Lemma handle_keys_keeps_world_witness :
  same_world small_engine
    (with_camera small_engine
       (rotate (camera small_engine) (- rotation_speed small_engine * 1))).
Proof.
  apply (handle_keys_keeps_world (fun c => c) small_engine
           (with_camera small_engine
              (rotate (camera small_engine)
                 (- rotation_speed small_engine * 1)))
           (on_press no_key_pressed Key_left)
           (on_press no_key_pressed Key_left) 1).
  reflexivity.
Defined.

Section HandleKeysMore.

Variable toggle_textures : Raycaster -> Raycaster.

(** X16.  With the texture key up, and each pair of opposite keys either both
    down or both up, [_handle_keys] changes nothing: in particular with no
    key down at all. *)
Theorem handle_keys_opposite_keys_cancel
    (e : Engine) (pk : key_state) (dt : R) :
  pk (KEY_BINDINGS toggle_texture) = false ->
  _is_pressed pk [turn_left_1; turn_left_2]
  = _is_pressed pk [turn_right_1; turn_right_2] ->
  _is_pressed pk [forward_1; forward_2]
  = _is_pressed pk [backward_1; backward_2] ->
  _is_pressed pk [strafe_left] = _is_pressed pk [strafe_right] ->
  _handle_keys toggle_textures e pk dt = Some (e, pk).
Proof.
  intros Ht Hturn Hwalk Hstrafe.
  unfold _handle_keys, handle_toggle; rewrite Ht.
  rewrite Hturn, Hwalk, Hstrafe.
  unfold handle_turn, handle_walk, handle_strafe.
  rewrite !andb_negb_r; reflexivity.
Qed.

Lemma set_key_same (pk : key_state) (k : key) (v : bool) :
  set_key pk k v k = v.
Proof.
  unfold set_key.
  assert (H : key_eqb k k = true).
  { destruct k; simpl; auto using Nat.eqb_refl, Ascii.eqb_refl. }
  rewrite H; reflexivity.
Qed.

Lemma key_eqb_eq (a b : key) : key_eqb a b = true -> a = b.
Proof.
  destruct a, b; simpl; try discriminate; try reflexivity.
  - intros H; apply Nat.eqb_eq in H; congruence.
  - intros H; apply Ascii.eqb_eq in H; congruence.
Qed.

Lemma set_key_other (pk : key_state) (k k' : key) (v : bool) :
  k' <> k -> set_key pk k v k' = pk k'.
Proof.
  intros Hne; unfold set_key.
  destruct (key_eqb k' k) eqn:H; [| reflexivity].
  apply key_eqb_eq in H; contradiction.
Qed.

(** X17.  A call of [_handle_keys] that returns has released the texture key, has
    left every other key as it was, and has toggled the textures of the
    caster once if the key was down and not at all otherwise. *)
Theorem handle_keys_consumes_toggle
    (e e' : Engine) (pk pk' : key_state) (dt : R) :
  _handle_keys toggle_textures e pk dt = Some (e', pk') ->
  pk' (KeyCode "t") = false
  /\ (forall k, k <> KeyCode "t" -> pk' k = pk k)
  /\ caster e' = (if pk (KeyCode "t")
                  then toggle_textures (caster e) else caster e).
Proof.
  unfold _handle_keys.
  destruct (handle_toggle toggle_textures e pk) as [e1 pk1] eqn:Ht.
  assert (H1 : pk1 (KeyCode "t") = false
               /\ (forall k, k <> KeyCode "t" -> pk1 k = pk k)
               /\ caster e1 = (if pk (KeyCode "t")
                               then toggle_textures (caster e)
                               else caster e)).
  { unfold handle_toggle in Ht; simpl in Ht.
    destruct (pk (KeyCode "t")) eqn:Hp; injection Ht as <- <-.
    - split; [apply set_key_same |].
      split; [intros k Hk; apply set_key_other; exact Hk | reflexivity].
    - split; [exact Hp |]. split; [reflexivity | reflexivity]. }
  set (l := _is_pressed pk1 [turn_left_1; turn_left_2]).
  set (r := _is_pressed pk1 [turn_right_1; turn_right_2]).
  destruct (handle_turn_same_world e1 l r dt) as (_ & C2 & _).
  destruct (handle_walk (handle_turn e1 l r dt) _ _ dt) as [e3 |] eqn:Hw;
    [| discriminate].
  apply handle_walk_same_world in Hw as [_ C3].
  destruct (handle_strafe e3 _ _ dt) as [e4 |] eqn:Hs; [| discriminate].
  apply handle_strafe_same_world in Hs as [_ C4].
  intros H; injection H as <- <-.
  destruct H1 as (Ha & Hb & Hc).
  split; [exact Ha |]. split; [exact Hb |].
  rewrite C4, C3, C2; exact Hc.
Qed.

End HandleKeysMore.

Lemma STRAFE_ROT_entries : STRAFE_ROT = Mat2 0 (- (1)) 1 0.
Proof.
  unfold STRAFE_ROT, rotation_matrix.
  replace (3 * PI / 2) with (3 * (PI / 2)) by field.
  rewrite cos_3PI2, sin_3PI2.
  f_equal; lra.
Qed.

(** X18.  In exact arithmetic a side step is at a right angle to the direction
    row [(dx, dy)] of the camera: with [k = translation_speed * dt], the
    step to the left asks [_move_to] for the position plus [(k dy, - k dx)]
    and the step to the right for the position plus [(- k dy, k dx)]. *)
Theorem strafe_is_perpendicular (e : Engine) (dt : R) :
  let k := translation_speed e * dt in
  let dx := a00 (_plane (camera e)) in
  let dy := a01 (_plane (camera e)) in
  let x := fst (pos (camera e)) in
  let y := snd (pos (camera e)) in
  handle_strafe e true false dt = move_camera e (x + k * dy, y - k * dx)
  /\ handle_strafe e false true dt = move_camera e (x - k * dy, y + k * dx)
  /\ dot (k * dy, - (k * dx)) (dx, dy) = 0.
Proof.
  intros k dx dy x y.
  unfold handle_strafe; simpl.
  rewrite STRAFE_ROT_entries.
  unfold vadd, vecmat, scale, mat_neg, row0, dot; simpl.
  fold k dx dy x y.
  repeat split.
  - f_equal; f_equal; ring.
  - f_equal; f_equal; ring.
  - ring.
Qed.

(** ** More on reading assets *)

Lemma traverse_Some {A B : Type} (f : A -> option B) (l : list A)
    (ys : list B) :
  traverse f l = Some ys <-> Forall2 (fun x y => f x = Some y) l ys.
Proof.
  revert ys; induction l as [| x l IH]; intros ys; simpl.
  - split.
    + intros H; injection H as <-; constructor.
    + intros H; inversion H; reflexivity.
  - destruct (f x) as [y |] eqn:Hx.
    + destruct (traverse f l) as [ys' |] eqn:Hl.
      * split.
        -- intros H; injection H as <-; constructor; [exact Hx |].
           apply IH; reflexivity.
        -- intros H; inversion H as [| ? y' ? ys'' Hy Hrest]; subst.
           apply IH in Hrest; congruence.
      * split; [discriminate |].
        intros H; inversion H as [| ? y' ? ys'' Hy Hrest]; subst.
        apply IH in Hrest; discriminate.
    + split; [discriminate |].
      intros H; inversion H; congruence.
Qed.

Lemma traverse_None {A B : Type} (f : A -> option B) (l : list A) :
  traverse f l = None <-> Exists (fun x => f x = None) l.
Proof.
  induction l as [| x l IH]; simpl.
  - split; [discriminate | intros H; inversion H].
  - destruct (f x) as [y |] eqn:Hx.
    + destruct (traverse f l) as [ys |].
      * split; [discriminate |].
        intros H; inversion H; subst; [congruence |].
        apply IH in H1; discriminate.
      * split; [| reflexivity].
        intros _; apply Exists_cons_tl, IH; reflexivity.
    + split; [| reflexivity].
      intros _; apply Exists_cons_hd; exact Hx.
Qed.

Lemma traverse_int_of_char_None (line : str) :
  traverse int_of_char line = None <-> forallb is_digit line = false.
Proof.
  rewrite traverse_None.
  induction line as [| c line IH]; simpl.
  - split; [intros H; inversion H | discriminate].
  - unfold int_of_char at 1.
    destruct (is_digit c) eqn:Hc; simpl.
    + rewrite <- IH; split.
      * intros H; inversion H; subst; [rewrite Hc in *; discriminate |].
        assumption.
      * intros H; apply Exists_cons_tl; exact H.
    + split; [reflexivity |].
      intros _; apply Exists_cons_hd; unfold int_of_char; rewrite Hc.
      reflexivity.
Qed.

Lemma np_array_None {A : Type} (rows : list (list A)) :
  np_array rows = None
  <-> exists r r', In r rows /\ In r' rows /\ length r <> length r'.
Proof.
  destruct rows as [| r0 rows]; simpl.
  - split; [discriminate | intros (r & _ & [] & _)].
  - rewrite Nat.eqb_refl; simpl.
    destruct (forallb (fun r' => Nat.eqb (length r') (length r0)) rows)
      eqn:Hall.
    + split; [discriminate |].
      rewrite forallb_forall in Hall.
      assert (Hlen : forall r, r0 = r \/ In r rows -> length r = length r0).
      { intros r [<- | Hin]; [reflexivity |].
        apply Nat.eqb_eq, Hall, Hin. }
      intros (r & r' & Hr & Hr' & Hne).
      rewrite (Hlen r Hr), (Hlen r' Hr') in Hne; contradiction.
    + split; [| reflexivity].
      intros _.
      assert (Hex : exists r, In r rows /\ length r <> length r0).
      { clear -Hall; induction rows as [| r rows IH]; simpl in *;
          [discriminate |].
        destruct (Nat.eqb_spec (length r) (length r0)) as [He | Hne].
        - destruct (IH Hall) as (r' & Hin & Hne); exists r'; auto.
        - exists r; auto. }
      destruct Hex as (r & Hin & Hne).
      exists r, r0; auto.
Qed.

(** X19.  [read_map] returns exactly when every line is made of digits and no two
    lines differ in length: a character that is no digit, or a line shorter
    or longer than another (a blank line at the end, say), raises.  What it
    returns is well shaped. *)
Theorem read_map_returns_iff (text : str) :
  ((exists a, read_map text = Some a)
   <-> Forall (fun line => forallb is_digit line = true) (splitlines text)
       /\ forall l l', In l (splitlines text) -> In l' (splitlines text) ->
                       length l = length l')
  /\ forall a, read_map text = Some a -> well_shaped a.
Proof.
  unfold read_map; set (lines := splitlines text).
  split.
  - split.
    + intros [a Ha].
      destruct (traverse (traverse int_of_char) lines) as [rows |] eqn:Hrows;
        [| discriminate].
      assert (Hdig : Forall (fun line => forallb is_digit line = true) lines).
      { apply Forall_forall; intros line Hin.
        destruct (forallb is_digit line) eqn:Hd; [reflexivity | exfalso].
        apply traverse_int_of_char_None in Hd.
        assert (Hn : traverse (traverse int_of_char) lines = None).
        { apply traverse_None, Exists_exists; exists line; auto. }
        congruence. }
      split; [exact Hdig |].
      rewrite (traverse_lines lines Hdig) in Hrows; injection Hrows as <-.
      intros l l' Hl Hl'.
      destruct (Nat.eq_dec (length l) (length l')) as [He | Hne];
        [exact He | exfalso].
      assert (Hn : np_array (map (map digit_value) lines) = None).
      { apply np_array_None.
        exists (map digit_value l), (map digit_value l').
        rewrite !length_map; repeat split; auto using in_map. }
      rewrite Hn in Ha; discriminate.
    + intros [Hdig Hlen].
      rewrite (traverse_lines lines Hdig).
      destruct (np_array (map (map digit_value) lines)) as [a |] eqn:Ha;
        [eexists; reflexivity | exfalso].
      apply np_array_None in Ha as (r & r' & Hr & Hr' & Hne).
      apply in_map_iff in Hr as (l & <- & Hl).
      apply in_map_iff in Hr' as (l' & <- & Hl').
      rewrite !length_map in Hne; apply Hne, Hlen; assumption.
  - intros a Ha.
    destruct (traverse (traverse int_of_char) lines) as [rows |];
      [| discriminate].
    destruct rows as [| r rows]; simpl in Ha.
    + injection Ha as <-; exact I.
    + rewrite Nat.eqb_refl in Ha; simpl in Ha.
      destruct (forallb (fun r' => Nat.eqb (length r') (length r)) rows)
        eqn:Hall; [| discriminate].
      injection Ha as <-.
      apply transpose_well_shaped; split; [reflexivity |].
      constructor; [reflexivity |].
      apply Forall_forall; intros r' Hin.
      rewrite forallb_forall in Hall; apply Nat.eqb_eq, Hall, Hin.
Qed.

Lemma transposed_grid_of_rows {A : Type} (value : ascii -> A) (text : str) :
  grid_lines (splitlines text) ->
  exists a,
    np_array (map (map value) (splitlines text)) = Some a
    /\ transposed_grid value text (transpose a).
Proof.
  intros [Hne Hall].
  set (lines := splitlines text) in *.
  set (L := length (hd [] lines)) in *.
  set (rows := map (map value) lines).
  assert (Hrows : Forall (fun r => length r = L) rows).
  { apply Forall_forall; intros r Hin.
    apply in_map_iff in Hin as (line & <- & Hin).
    rewrite length_map.
    rewrite Forall_forall in Hall; apply (Hall line Hin). }
  assert (Hrne : rows <> []).
  { unfold rows; destruct lines; [contradiction | discriminate]. }
  assert (Hlen : length rows = length lines) by apply length_map.
  assert (Hw : well_shaped (Array2 (length rows) L rows))
    by (split; [reflexivity | exact Hrows]).
  exists (Array2 (length rows) L rows).
  split; [apply np_array_rectangular; assumption |].
  split; [apply transpose_well_shaped; exact Hw |].
  split; [simpl; rewrite Hlen; reflexivity |].
  intros x y line c Hline Hc.
  change (nth_error lines y = Some line) in Hline.
  assert (Hy : (y < length lines)%nat).
  { apply nth_error_Some; rewrite Hline; discriminate. }
  assert (HL : length line = L).
  { rewrite Forall_forall in Hall.
    apply (Hall line (nth_error_In _ _ Hline)). }
  assert (Hx : (x < L)%nat).
  { rewrite <- HL; apply nth_error_Some; rewrite Hc; discriminate. }
  rewrite getitem2_transpose by (assumption || lia).
  unfold rows, str in *.
  rewrite nth_error_map, Hline; simpl.
  rewrite nth_error_map, Hc; reflexivity.
Qed.

Lemma read_wall_of_grid (text : str) :
  grid_lines (splitlines text) ->
  Forall (fun line => forallb is_digit line = true) (splitlines text) ->
  exists a, _read_wall text = Some a /\ transposed_grid digit_value text a.
Proof.
  intros Hg Hd.
  destruct (transposed_grid_of_rows digit_value text Hg) as (a & Ha & Ht).
  exists (transpose a); split; [| exact Ht].
  unfold _read_wall; rewrite (traverse_lines _ Hd), Ha; reflexivity.
Qed.



Lemma traverse_Forall {A B : Type} (f : A -> option B) (P : A -> Prop)
    (Q : A -> B -> Prop) (l : list A) :
  (forall x, P x -> exists y, f x = Some y /\ Q x y) ->
  Forall P l ->
  exists ys, traverse f l = Some ys /\ Forall2 Q l ys.
Proof.
  intros Hf; induction 1 as [| x l Hx _ (ys & Hys & HQ)]; simpl.
  - exists []; split; [reflexivity | constructor].
  - destruct (Hf x Hx) as (y & Hy & Hq).
    exists (y :: ys); rewrite Hy, Hys; split; [reflexivity |].
    constructor; assumption.
Qed.

(** X20.  When every file holds a grid of digits, [read_wall_textures] returns one
    texture per file, in the order of the files, each the transposed grid
    of the digits of its file. *)
Theorem read_wall_textures_of_grids (texts : list str) :
  Forall (fun text =>
            grid_lines (splitlines text)
            /\ Forall (fun line => forallb is_digit line = true)
                      (splitlines text)) texts ->
  exists textures,
    read_wall_textures texts = Some textures
    /\ Forall2 (transposed_grid digit_value) texts textures.
Proof.
  unfold read_wall_textures; apply traverse_Forall.
  intros text [Hg Hd]; apply read_wall_of_grid; assumption.
Qed.

Lemma two_line_map_grid : grid_lines (splitlines two_line_map).
Proof.
  split; [vm_compute; discriminate | vm_compute; repeat constructor].
Qed.

Lemma read_wall_textures_of_grids_witness :
  exists textures,
    read_wall_textures [two_line_map; two_line_map] = Some textures
    /\ Forall2 (transposed_grid digit_value) [two_line_map; two_line_map]
               textures.
Proof.
  apply (read_wall_textures_of_grids [two_line_map; two_line_map]).
  assert (H : grid_lines (splitlines two_line_map)
              /\ Forall (fun line => forallb is_digit line = true)
                        (splitlines two_line_map)).
  { split; [exact two_line_map_grid | vm_compute; repeat constructor]. }
  constructor; [exact H |]. constructor; [exact H | constructor].
Defined.

(** X21.  One character that is no digit, in any line of any file, makes the
    whole of [read_wall_textures] raise: no texture is returned. *)
Theorem read_wall_textures_rejects_non_digit (texts : list str) :
  Exists (fun text =>
            Exists (fun line => forallb is_digit line = false)
                   (splitlines text)) texts ->
  read_wall_textures texts = None.
Proof.
  intros H; unfold read_wall_textures; apply traverse_None.
  eapply Exists_impl; [| exact H].
  simpl; intros text Hbad; unfold _read_wall.
  replace (traverse (traverse int_of_char) (splitlines text)) with
    (@None (list (list N))); [reflexivity |].
  symmetry; apply traverse_None.
  eapply Exists_impl; [| exact Hbad].
  simpl; intros line Hl; apply traverse_int_of_char_None; exact Hl.
Qed.

Lemma read_wall_textures_rejects_non_digit_witness :
  read_wall_textures [two_line_map; ["1"; " "; "1"]%char] = None.
Proof.
  apply (read_wall_textures_rejects_non_digit
           [two_line_map; ["1"; " "; "1"]%char]).
  apply Exists_cons_tl, Exists_cons_hd.
  vm_compute; apply Exists_cons_hd; reflexivity.
Defined.



(** ** The sprite file *)

Lemma yield_sprites_well_typed (data : list sprite_data) :
  yield_sprites (map json_of_sprite_data data)
  = (map object_of_sprite (iter_from_json data), None).
Proof.
  induction data as [| d data IH]; [reflexivity |].
  cbn [map yield_sprites].
  change (getitem_str (json_of_sprite_data d) key_pos)
    with (@inr py_exception json
            (JList [JFloat (fst (data_pos d)); JFloat (snd (data_pos d))])).
  change (getitem_str (json_of_sprite_data d) key_texture_index)
    with (@inr py_exception json (JInt (data_texture_index d))).
  cbn [py_iter]; rewrite IH; reflexivity.
Qed.

(** X23.  On a document that is a list of records of the expected form, the
    generator raises nothing and yields, in order, the sprites of the
    records. *)
Theorem iter_from_json_value_well_typed (data : list sprite_data) :
  iter_from_json_value (JList (map json_of_sprite_data data))
  = (map object_of_sprite (iter_from_json data), None).
Proof.
  unfold iter_from_json_value; cbn [py_iter].
  apply yield_sprites_well_typed.
Qed.

Lemma yield_sprites_app_well_typed (good : list sprite_data)
    (rest : list json) :
  yield_sprites (map json_of_sprite_data good ++ rest)
  = (map object_of_sprite (iter_from_json good)
       ++ fst (yield_sprites rest),
     snd (yield_sprites rest)).
Proof.
  induction good as [| d good IH].
  - simpl; destruct (yield_sprites rest); reflexivity.
  - cbn [map app yield_sprites].
    change (getitem_str (json_of_sprite_data d) key_pos)
      with (@inr py_exception json
              (JList [JFloat (fst (data_pos d)); JFloat (snd (data_pos d))])).
    change (getitem_str (json_of_sprite_data d) key_texture_index)
      with (@inr py_exception json (JInt (data_texture_index d))).
    cbn [py_iter]; rewrite IH; reflexivity.
Qed.

(** X24.  A record without the key [pos], or with a list under [pos] and without
    the key [texture_index], ends the generator with [KeyError] of that key:
    the sprites of the records before it have been yielded, those of the
    records after it never are. *)
Theorem iter_from_json_value_missing_key
    (good : list sprite_data) (items : list (str * json))
    (rest : list json) (k : str) :
  (k = key_pos /\ dict_get key_pos items = None)
  \/ (k = key_texture_index
      /\ (exists p, dict_get key_pos items = Some (JList p))
      /\ dict_get key_texture_index items = None) ->
  iter_from_json_value
    (JList (map json_of_sprite_data good ++ JDict items :: rest))
  = (map object_of_sprite (iter_from_json good), Some (KeyError k)).
Proof.
  intros H.
  unfold iter_from_json_value; cbn [py_iter].
  rewrite yield_sprites_app_well_typed.
  assert (Hbad : yield_sprites (JDict items :: rest)
                 = ([], Some (KeyError k))).
  { cbn [yield_sprites getitem_str].
    destruct H as [[-> Hp] | (-> & [p Hp] & Ht)].
    - rewrite Hp; reflexivity.
    - rewrite Hp; cbn [py_iter]; rewrite Ht; reflexivity. }
  rewrite Hbad; simpl; rewrite app_nil_r; reflexivity.
Qed.

Lemma iter_from_json_value_missing_key_witness :
  iter_from_json_value
    (JList (map json_of_sprite_data [mkSpriteData (1, 1) 0]
            ++ JDict [(key_pos, JList [JInt 2; JInt 1])] :: []))
  = (map object_of_sprite (iter_from_json [mkSpriteData (1, 1) 0]),
     Some (KeyError key_texture_index)).
Proof.
  apply (iter_from_json_value_missing_key
           [mkSpriteData (1, 1) 0] [(key_pos, JList [JInt 2; JInt 1])] []
           key_texture_index).
  right; split; [reflexivity |].
  split; [exists [JInt 2; JInt 1]; reflexivity | reflexivity].
Defined.

(** X25.  A document that is not a list yields no sprite: iterating it raises
    [TypeError], at once or at its first element, unless it is the empty
    string or the empty object, which end the generator quietly. *)
Theorem iter_from_json_value_not_a_list (data : json) :
  (forall items, data <> JList items) ->
  fst (iter_from_json_value data) = []
  /\ (snd (iter_from_json_value data) = Some TypeError
      \/ (snd (iter_from_json_value data) = None
          /\ (data = JStr [] \/ data = JDict []))).
Proof.
  intros Hnl; unfold iter_from_json_value.
  destruct data as [| b | z | r | s | items | items]; cbn [py_iter];
    try (split; [reflexivity | left; reflexivity]).
  - destruct s as [| c s]; simpl.
    + split; [reflexivity | right; auto].
    + split; [reflexivity | left; reflexivity].
  - exfalso; apply (Hnl items); reflexivity.
  - destruct items as [| [k v] items]; simpl.
    + split; [reflexivity | right; auto].
    + split; [reflexivity | left; reflexivity].
Qed.

Lemma iter_from_json_value_not_a_list_witness :
  fst (iter_from_json_value (json_of_sprite_data (mkSpriteData (1, 1) 0)))
  = []
  /\ (snd (iter_from_json_value
             (json_of_sprite_data (mkSpriteData (1, 1) 0)))
      = Some TypeError
      \/ (snd (iter_from_json_value
                 (json_of_sprite_data (mkSpriteData (1, 1) 0))) = None
          /\ (json_of_sprite_data (mkSpriteData (1, 1) 0) = JStr []
              \/ json_of_sprite_data (mkSpriteData (1, 1) 0) = JDict []))).
Proof.
  apply (iter_from_json_value_not_a_list
           (json_of_sprite_data (mkSpriteData (1, 1) 0))).
  intros items; discriminate.
Defined.

(** ** Instances of the key handling statements *)

Lemma handle_keys_opposite_keys_cancel_witness :
  _handle_keys (fun c => c) small_engine
    (on_press (on_press no_key_pressed Key_left) (KeyCode "d")) 1
  = Some (small_engine,
          on_press (on_press no_key_pressed Key_left) (KeyCode "d")).
Proof.
  apply (handle_keys_opposite_keys_cancel (fun c => c) small_engine
           (on_press (on_press no_key_pressed Key_left) (KeyCode "d")) 1);
    reflexivity.
Defined.

Lemma handle_keys_consumes_toggle_witness :
  set_key (on_press no_key_pressed (KeyCode "t")) (KeyCode "t") false
    (KeyCode "t") = false
  /\ (forall k, k <> KeyCode "t" ->
      set_key (on_press no_key_pressed (KeyCode "t")) (KeyCode "t") false k
      = on_press no_key_pressed (KeyCode "t") k)
  /\ caster (with_caster small_engine (caster small_engine))
     = (if on_press no_key_pressed (KeyCode "t") (KeyCode "t")
        then caster small_engine else caster small_engine).
Proof.
  apply (handle_keys_consumes_toggle (fun c => c) small_engine
           (with_caster small_engine (caster small_engine))
           (on_press no_key_pressed (KeyCode "t"))
           (set_key (on_press no_key_pressed (KeyCode "t")) (KeyCode "t")
              false)
           1).
  reflexivity.
Defined.
